(** * vercel-cleanup-action: the deployment-list parser and the cleanup loop

    A shallow embedding of [scripts/cleanup_vercel_deployments.py].

    Python [str] values are lists of Unicode code points.  The regular
    expressions of the script are values of a small syntax [re], run by a
    backtracking matcher with the priorities of Python's [re] module
    (leftmost start, ordered alternation, greedy and lazy repetition, capture
    groups restored on backtracking).  Log calls are kept as an event trace,
    sub-processes are oracles over an abstract world. *)

From Stdlib Require Import String Ascii List NArith ZArith Bool Arith Lia.
Import ListNotations.

Set Implicit Arguments.

(** ** Code points and Python strings *)

Definition char := N.
Definition str := list char.

Definition char_eqb (a b : char) : bool := N.eqb a b.

(** A string literal of the script, for ASCII text. *)
Definition lit (s : string) : str :=
  List.map (fun a => N_of_ascii a) (list_ascii_of_string s).

(** The newline. *)
Definition nl : str := [10%N].

(** U+25CF BLACK CIRCLE, the status marker of the table. *)
Definition bullet : char := 9679%N.

Local Open Scope N_scope.

Definition in_range (lo hi c : char) : bool := (N.leb lo c && N.leb c hi)%bool.

(** [str.isspace] of one code point: what [str.strip()] removes and what
    [\s] matches in a [str] pattern. *)
Definition is_space (c : char) : bool :=
  (in_range 9 13 c || in_range 28 32 c || N.eqb c 133 || N.eqb c 160
   || N.eqb c 5760 || in_range 8192 8202 c || N.eqb c 8232 || N.eqb c 8233
   || N.eqb c 8239 || N.eqb c 8287 || N.eqb c 12288)%bool.

Definition is_upper (c : char) : bool := in_range 65 90 c.
Definition is_lower (c : char) : bool := in_range 97 122 c.
Definition is_digit (c : char) : bool := in_range 48 57 c.
Definition to_lower (c : char) : char := if is_upper c then c + 32 else c.
Definition to_upper (c : char) : char := if is_lower c then c - 32 else c.

(** The code points outside ASCII that [re.IGNORECASE] identifies with an
    ASCII letter: dotted capital I and dotless i with [i], long s with [s],
    the Kelvin sign with [k]. *)
Definition ignorecase_extra (lo x : char) : bool :=
  ((N.eqb lo 105 && (N.eqb x 304 || N.eqb x 305))
   || (N.eqb lo 115 && N.eqb x 383)
   || (N.eqb lo 107 && N.eqb x 8490))%bool.

(** A literal [p] of a pattern against the code point [x] of the text.  The
    literals of the script's patterns are ASCII or have no case. *)
Definition lit_match (ignorecase : bool) (p x : char) : bool :=
  if (ignorecase && (is_upper p || is_lower p))%bool
  then (N.eqb x (to_lower p) || N.eqb x (to_upper p)
        || ignorecase_extra (to_lower p) x)%bool
  else N.eqb x p.

Local Close Scope N_scope.

Fixpoint lstrip (s : str) : str :=
  match s with
  | c :: t => if is_space c then lstrip t else s
  | [] => []
  end.

Definition rstrip (s : str) : str := rev (lstrip (rev s)).

(** [s.strip()] *)
Definition strip (s : str) : str := rstrip (lstrip s).

(** [s.startswith(p)] *)
Fixpoint startswith (p s : str) : bool :=
  match p, s with
  | [], _ => true
  | a :: p', b :: s' => (char_eqb a b && startswith p' s')%bool
  | _ :: _, [] => false
  end.

(** [p in s] *)
Fixpoint contains (p s : str) : bool :=
  (startswith p s ||
   match s with
   | [] => false
   | _ :: t => contains p t
   end)%bool.

(** [s.split('\n')]: never empty, the last piece has no newline. *)
Fixpoint split_nl (s : str) : list str :=
  match s with
  | [] => [[]]
  | c :: t =>
      if N.eqb c 10%N then [] :: split_nl t
      else match split_nl t with
           | l :: ls => (c :: l) :: ls
           | [] => [[c]]
           end
  end.

(** [enumerate(xs, start)] *)
Definition enumerate {A} (start : nat) (xs : list A) : list (nat * A) :=
  combine (seq start (length xs)) xs.

(** A string as a condition: empty is false. *)
Definition truthy (s : str) : bool :=
  match s with [] => false | _ :: _ => true end.

(** ** Regular expressions *)

Inductive cclass := CSpace | CNotSpace | CDot.

Definition in_class (k : cclass) (c : char) : bool :=
  match k with
  | CSpace => is_space c
  | CNotSpace => negb (is_space c)
  | CDot => negb (N.eqb c 10%N)
  end.

(** Repetition is applied to character classes only, as in every pattern of
    the script: [\s*], [\s+], [\S+], [[^\s]+] and [.*?]. *)
Inductive re :=
| Eps
| Lit (c : char)
| Bol
| WordB
| Many (greedy : bool) (min : nat) (k : cclass)
| Seq (a b : re)
| Alt (a b : re)
| Grp (n : nat) (a : re).

Declare Scope re_scope.
Delimit Scope re_scope with re.
Bind Scope re_scope with re.
Notation "a ;; b" := (Seq a b) (at level 61, right associativity) : re_scope.
Notation "a || b" := (Alt a b) : re_scope.

(** A run of literals. *)
Fixpoint Str (s : str) : re :=
  match s with
  | [] => Eps
  | [c] => Lit c
  | c :: t => Seq (Lit c) (Str t)
  end.

Definition Word (s : string) : re := Str (lit s).

(** Number of groups of a pattern: [len(match.groups())]. *)
Fixpoint ngroups (r : re) : nat :=
  match r with
  | Eps | Lit _ | Bol | WordB | Many _ _ _ => 0
  | Seq a b | Alt a b => ngroups a + ngroups b
  | Grp _ a => S (ngroups a)
  end.

(** The groups of a match, most recent binding first. *)
Definition captures := list (nat * str).

Fixpoint get_group (n : nat) (e : captures) : option str :=
  match e with
  | [] => None
  | (m, s) :: t => if Nat.eqb m n then Some s else get_group n t
  end.

(** [match.group(n)].  Python gives [None] for a group that took no part in
    the match; in the patterns of the script every group is bound by every
    match (lemmas [patterns_capture], [fallback_status_capture],
    [fallback_url_capture], [status_word_capture], [bare_url_capture]). *)
Definition group (e : captures) (n : nat) : str :=
  match get_group n e with Some s => s | None => [] end.

Section Regex.

(** [str.isalnum] of a code point outside ASCII: the Unicode character
    database of the interpreter, which is not part of the repository. *)
Variable unicode_alnum : char -> bool.

(** [\w] of a [str] pattern. *)
Definition is_word (c : char) : bool :=
  if N.ltb c 128%N
  then (is_upper c || is_lower c || is_digit c || N.eqb c 95%N)%bool
  else unicode_alnum c.

Definition word_at (o : option char) : bool :=
  match o with Some c => is_word c | None => false end.

Variable ignorecase : bool.

Section Repeat.
Variable p : char -> bool.
Variable k : str -> str -> option captures.

(** Greedy: take one more while possible, give back on failure. *)
Fixpoint many_greedy (min : nat) (bef aft : str) : option captures :=
  let stop := if Nat.eqb min 0 then k bef aft else None in
  match aft with
  | x :: t =>
      if p x then
        match many_greedy (pred min) (x :: bef) t with
        | Some e => Some e
        | None => stop
        end
      else stop
  | [] => stop
  end.

(** Lazy: stop as soon as the rest matches, take one more otherwise. *)
Fixpoint many_lazy (min : nat) (bef aft : str) : option captures :=
  match (if Nat.eqb min 0 then k bef aft else None) with
  | Some e => Some e
  | None =>
      match aft with
      | x :: t => if p x then many_lazy (pred min) (x :: bef) t else None
      | [] => None
      end
  end.
End Repeat.

(** The text a group spans: from the cursor [bef] (reversed prefix read so
    far) to the later cursor [bef']. *)
Definition span (bef bef' : str) : str :=
  rev (firstn (length bef' - length bef) bef').

(** The matcher, in continuation-passing style: [bef] is the text before the
    cursor, reversed; [aft] the text after it. *)
Fixpoint mtch (r : re) (k : str -> str -> captures -> option captures)
         (bef aft : str) (e : captures) : option captures :=
  match r with
  | Eps => k bef aft e
  | Lit c =>
      match aft with
      | x :: t => if lit_match ignorecase c x then k (x :: bef) t e else None
      | [] => None
      end
  | Bol => match bef with [] => k bef aft e | _ :: _ => None end
  | WordB =>
      if xorb (word_at (hd_error bef)) (word_at (hd_error aft))
      then k bef aft e else None
  | Many true min c => many_greedy (in_class c) (fun b a => k b a e) min bef aft
  | Many false min c => many_lazy (in_class c) (fun b a => k b a e) min bef aft
  | Seq a b => mtch a (fun bef' aft' e' => mtch b k bef' aft' e') bef aft e
  | Alt a b =>
      match mtch a k bef aft e with
      | Some e' => Some e'
      | None => mtch b k bef aft e
      end
  | Grp n a =>
      mtch a (fun bef' aft' e' => k bef' aft' ((n, span bef bef') :: e')) bef aft e
  end.

(** [runs r bef aft e bef' aft' e']: the pattern [r] reads from the cursor
    [(bef, aft)] to the cursor [(bef', aft')] and turns the groups [e] into
    [e']. *)
Fixpoint runs (r : re) (bef aft : str) (e : captures)
         (bef' aft' : str) (e' : captures) : Prop :=
  match r with
  | Eps => bef' = bef /\ aft' = aft /\ e' = e
  | Lit c =>
      exists x, aft = x :: aft' /\ lit_match ignorecase c x = true /\
                bef' = x :: bef /\ e' = e
  | Bol => bef = [] /\ bef' = bef /\ aft' = aft /\ e' = e
  | WordB =>
      xorb (word_at (hd_error bef)) (word_at (hd_error aft)) = true /\
      bef' = bef /\ aft' = aft /\ e' = e
  | Many _ min k =>
      exists cs, aft = cs ++ aft' /\ bef' = rev cs ++ bef /\
                 forallb (in_class k) cs = true /\ min <= length cs /\ e' = e
  | Seq a b =>
      exists bef1 aft1 e1,
        runs a bef aft e bef1 aft1 e1 /\ runs b bef1 aft1 e1 bef' aft' e'
  | Alt a b => runs a bef aft e bef' aft' e' \/ runs b bef aft e bef' aft' e'
  | Grp n a =>
      exists e1, runs a bef aft e bef' aft' e1 /\ e' = (n, span bef bef') :: e1
  end.

Definition accept (_ _ : str) (e : captures) : option captures := Some e.

Fixpoint search_from (r : re) (bef aft : str) : option captures :=
  match mtch r accept bef aft [] with
  | Some e => Some e
  | None =>
      match aft with
      | x :: t => search_from r (x :: bef) t
      | [] => None
      end
  end.

(** [re.search(pattern, text, flags)] *)
Definition re_search (r : re) (text : str) : option captures :=
  search_from r [] text.

End Regex.

(** ** The patterns of [parse_deployments] *)

Definition ws0 : re := Many true 0 CSpace.
Definition ws1 : re := Many true 1 CSpace.
Definition nonspace1 : re := Many true 1 CNotSpace.
Definition lazy_any : re := Many false 0 CDot.

(** [(https://[^\s]+)] *)
Definition url_group : re := Grp 1 (Word "https://" ;; nonspace1).

(** [(Building|Queued|building|queued)] *)
Definition status_group : re :=
  Grp 2 (Word "Building" || Word "Queued" || Word "building" || Word "queued").

(** [(Build|Queue|build|queue)] *)
Definition partial_group : re :=
  Grp 2 (Word "Build" || Word "Queue" || Word "build" || Word "queue").

(** [^\s*\S+\s+(https://[^\s]+)\s+●\s*(Building|Queued|building|queued)] *)
Definition pattern1 : re :=
  (Bol ;; ws0 ;; nonspace1 ;; ws1 ;; url_group ;; ws1 ;; Lit bullet ;; ws0 ;; status_group)%re.

(** [^\s*\S+\s+(https://[^\s]+)\s+(Building|Queued|building|queued)] *)
Definition pattern2 : re :=
  (Bol ;; ws0 ;; nonspace1 ;; ws1 ;; url_group ;; ws1 ;; status_group)%re.

(** [(https://[^\s]+).*?\s+(Building|Queued|building|queued)] *)
Definition pattern3 : re := (url_group ;; lazy_any ;; ws1 ;; status_group)%re.

(** [(https://[^\s]+).*?(Building|Queued|building|queued)] *)
Definition pattern4 : re := (url_group ;; lazy_any ;; status_group)%re.

(** [(https://[^\s]+).*?\s+(Build|Queue|build|queue)] *)
Definition pattern5 : re := (url_group ;; lazy_any ;; ws1 ;; partial_group)%re.

Definition patterns : list re :=
  [pattern1; pattern2; pattern3; pattern4; pattern5].

(** [(https://[^\s]+).*?●\s*(Building|Queued|building|queued)] *)
Definition fallback_pattern1 : re :=
  (url_group ;; lazy_any ;; Lit bullet ;; ws0 ;; status_group)%re.

(** [(https://[^\s]+).*?(Building|Queued|building|queued)] *)
Definition fallback_pattern2 : re := (url_group ;; lazy_any ;; status_group)%re.

(** [^(https://[^\s]+)] *)
Definition fallback_pattern3 : re := (Bol ;; url_group)%re.

Definition fallback_patterns : list re :=
  [fallback_pattern1; fallback_pattern2; fallback_pattern3].

(** [\b(Building|Queued|building|queued)\b] *)
Definition status_word : re :=
  (WordB ;; Grp 1 (Word "Building" || Word "Queued" || Word "building" || Word "queued")
   ;; WordB)%re.

(** [(https://[^\s]+)], searched without flags by the last strategy. *)
Definition bare_url : re := url_group.

Definition header_keywords : list str :=
  [lit "Age"; lit "Deployment"; lit "Status"; lit "Environment"; lit "Duration"].

(** ['Age' in line or 'Deployment' in line or ...] *)
Definition has_header_keyword (line : str) : bool :=
  existsb (fun kw => contains kw line) header_keywords.

Definition https : str := lit "https://".

Definition MAX_PARSE_ROWS : nat := 10.

(** ** The log and the variables of [parse_deployments] *)

Definition deployment := (str * str)%type.

(** One constructor per decision the script logs. *)
Inductive event :=
| LogHeader (i : nat) (line : str)
| LogTryRow (line : str)
| LogRowCap
| LogRowMatch (pattern_idx : nat) (url status : str)
| LogRowNoMatch (line : str)
| LogNoHeader
| LogFallbackCap
| LogFallbackRow (i : nat) (line : str)
| LogFallbackMatch (pattern_idx : nat) (url status : str)
| LogUrlFound (url : str)
| LogNeighbourStatus (j : nat) (url status : str)
| LogFallbackNoMatch (line : str)
| LogAggressive (urls : nat)
| LogGuess (url status : str) (i : nat)
| LogAutoConfirm (url status : str)
| LogGuessSkipped
| LogAggressiveFound (n : nat)
| LogParsed (n : nat).

Record vars := {
  header_found : bool;
  start_parsing : bool;
  parse_count : nat;
  deployments : list deployment;
  log : list event
}.

Definition init_vars : vars :=
  {| header_found := false; start_parsing := false; parse_count := 0;
     deployments := []; log := [] |}.

Definition emit (ev : event) (v : vars) : vars :=
  {| header_found := header_found v; start_parsing := start_parsing v;
     parse_count := parse_count v; deployments := deployments v;
     log := log v ++ [ev] |}.

(** [deployments.append(d)] *)
Definition append (d : deployment) (v : vars) : vars :=
  {| header_found := header_found v; start_parsing := start_parsing v;
     parse_count := parse_count v; deployments := deployments v ++ [d];
     log := log v |}.

Definition found_header (v : vars) : vars :=
  {| header_found := true; start_parsing := true;
     parse_count := parse_count v; deployments := deployments v;
     log := log v |}.

Definition set_count (n : nat) (v : vars) : vars :=
  {| header_found := header_found v; start_parsing := start_parsing v;
     parse_count := n; deployments := deployments v; log := log v |}.

(** [range(lo, hi)] *)
Definition range (lo hi : nat) : list nat := seq lo (hi - lo).

Section Parser.

Variable unicode_alnum : char -> bool.

(** The AUTO_CONFIRM_AGGRESSIVE_CLEANUP switch, read from the environment. *)
Variable auto_confirm : bool.

Abbreviation search_i := (re_search unicode_alnum true).
Abbreviation search_plain := (re_search unicode_alnum false).

(** [for pattern_idx, pattern in enumerate(patterns)]: the first pattern that
    matches the line, with its match. *)
Fixpoint first_match (pats : list (nat * re)) (original_line : str)
  : option (nat * captures) :=
  match pats with
  | [] => None
  | (pattern_idx, pattern) :: rest =>
      match search_i pattern original_line with
      | Some m => Some (pattern_idx, m)
      | None => first_match rest original_line
      end
  end.

(** The body of the first loop for a data row. *)
Definition parse_row (original_line : str) (v : vars) : vars :=
  match first_match (enumerate 0 patterns) original_line with
  | Some (pattern_idx, m) =>
      let deployment_url := group m 1 in
      let status := group m 2 in
      emit (LogRowMatch pattern_idx deployment_url status)
           (append (deployment_url, status) v)
  | None => emit (LogRowNoMatch original_line) v
  end.

(** The first loop: find the header, then parse the rows below it. *)
Fixpoint primary_loop (items : list (nat * str)) (v : vars) : vars :=
  match items with
  | [] => v
  | (i, original_line) :: rest =>
      let line := strip original_line in
      if negb (truthy line) then primary_loop rest v
      else if (negb (header_found v) && has_header_keyword line)%bool then
        primary_loop rest (found_header (emit (LogHeader i original_line) v))
      else if negb (start_parsing v) then primary_loop rest v
      else
        let v := set_count (parse_count v + 1) (emit (LogTryRow original_line) v) in
        if MAX_PARSE_ROWS <? parse_count v then emit LogRowCap v
        else primary_loop rest (parse_row original_line v)
  end.

(** The inner loop over the neighbours of a line that holds only a URL. *)
Fixpoint neighbour_search (lines : list str) (i : nat) (deployment_url : str)
         (search_range : list nat) (v : vars) : bool * vars :=
  match search_range with
  | [] => (false, v)
  | j :: rest =>
      if Nat.eqb i j then neighbour_search lines i deployment_url rest v
      else
        let search_line := strip (nth j lines []) in
        match search_i status_word search_line with
        | Some status_match =>
            let status := group status_match 1 in
            (true, emit (LogNeighbourStatus j deployment_url status)
                        (append (deployment_url, status) v))
        | None => neighbour_search lines i deployment_url rest v
        end
  end.

(** The loop over the patterns of the second strategy; the result holds the
    flag [matched]. *)
Fixpoint fallback_match (lines : list str) (i : nat) (original_line : str)
         (pats : list (nat * re)) (v : vars) : bool * vars :=
  match pats with
  | [] => (false, v)
  | (pattern_idx, pattern) :: rest =>
      match search_i pattern original_line with
      | Some m =>
          if 2 <=? ngroups pattern then
            let deployment_url := group m 1 in
            let status := group m 2 in
            (true, emit (LogFallbackMatch pattern_idx deployment_url status)
                        (append (deployment_url, status) v))
          else
            let deployment_url := group m 1 in
            let v := emit (LogUrlFound deployment_url) v in
            (* range(max(0, i-2), min(len(lines), i+3)); [i - 2] stops at 0 *)
            let search_range := range (i - 2) (Nat.min (length lines) (i + 3)) in
            match neighbour_search lines i deployment_url search_range v with
            | (true, v') => (true, v')
            | (false, v') => fallback_match lines i original_line rest v'
            end
      | None => fallback_match lines i original_line rest v
      end
  end.

(** The body of the second loop for a line that is not skipped. *)
Definition fallback_row (lines : list str) (i : nat) (original_line : str)
           (v : vars) : vars :=
  let v := emit (LogFallbackRow i original_line) v in
  if contains https original_line then
    match fallback_match lines i original_line (enumerate 0 fallback_patterns) v with
    | (true, v') => v'
    | (false, v') => emit (LogFallbackNoMatch original_line) v'
    end
  else v.

(** The second loop.  [parse_count] is compared with 10 at every line and
    assigned nowhere in the loop. *)
Fixpoint fallback_loop (lines : list str) (items : list (nat * str)) (v : vars)
  : vars :=
  match items with
  | [] => v
  | (i, original_line) :: rest =>
      if 10 <=? parse_count v then emit LogFallbackCap v
      else
        let line := strip original_line in
        if (negb (truthy line) || startswith (lit ">") line
            || startswith (lit "You can learn more") line)%bool
        then fallback_loop lines rest v
        else fallback_loop lines rest (fallback_row lines i original_line v)
  end.

(** [l for l in lines if 'https://' in l and l.strip()] *)
Definition url_candidates (lines : list str) : list str :=
  filter (fun l => (contains https l && truthy (strip l))%bool) lines.

(** The loop of the last strategy over [enumerate(url_lines[:3])]. *)
Fixpoint aggressive_loop (items : list (nat * str)) (v : vars) : vars :=
  match items with
  | [] => v
  | (i, url_line) :: rest =>
      if contains https url_line then
        match search_plain bare_url url_line with
        | Some url_match =>
            let deployment_url := group url_match 1 in
            let assumed_status :=
              if Nat.eqb i 0 then lit "Building" else lit "Queued" in
            let v := emit (LogGuess deployment_url assumed_status i) v in
            if auto_confirm then
              aggressive_loop rest
                (emit (LogAutoConfirm deployment_url assumed_status)
                      (append (deployment_url, assumed_status) v))
            else aggressive_loop rest (emit LogGuessSkipped v)
        | None => aggressive_loop rest v
        end
      else aggressive_loop rest v
  end.

(** What [deployments] holds when the header-anchored loop and, without a
    header, the headerless loop are done. *)
Definition structured_parse (lines : list str) : vars :=
  let v := primary_loop (enumerate 0 lines) init_vars in
  if negb (header_found v) then
    fallback_loop lines (enumerate 0 lines) (set_count 0 (emit LogNoHeader v))
  else v.

Definition aggressive_parse (lines : list str) (v : vars) : vars :=
  if (Nat.eqb (length (deployments v)) 0
      && (3 <=? length (url_candidates lines)))%bool then
    let v := emit (LogAggressive (length (url_candidates lines))) v in
    let url_lines := List.map strip (url_candidates lines) in
    let v := aggressive_loop (enumerate 0 (firstn 3 url_lines)) v in
    if 0 <? length (deployments v)
    then emit (LogAggressiveFound (length (deployments v))) v
    else v
  else v.

Definition parse_run (output : str) : vars :=
  let lines := split_nl output in
  let v := aggressive_parse lines (structured_parse lines) in
  emit (LogParsed (length (deployments v))) v.

(** [parse_deployments(output)] *)
Definition parse_deployments (output : str) : list deployment :=
  deployments (parse_run output).

Definition parse_log (output : str) : list event := log (parse_run output).

End Parser.

(** ** The cleanup of one project and the loop over the projects *)

(** A finished [subprocess.run]. *)
Record completed := { returncode : Z; stdout : str; stderr : str }.

(** What the orchestrator does to the outside, in order. *)
Inductive action :=
| ListFailed (project : str)
| NothingToClean (project : str)
| Keep (url status : str)
| Delete (url status : str) (ok : bool)
| Sleep.

Section Orchestrator.

Variable unicode_alnum : char -> bool.
Variable auto_confirm : bool.

(** The outside: the state of the platform and of the processes run, the
    token included. *)
Variable World : Type.

(** [subprocess.run] of command [cmd] of [commands_to_try] for a project by
    execution method [method]; [None] when it raises, a timeout included. *)
Variable run_list : str -> nat -> nat -> World -> option completed * World.

(** [subprocess.run] of [vercel rm url]; [None] when it raises. *)
Variable run_delete : str -> World -> option completed * World.

(** [for method_idx, method_kwargs in enumerate(execution_methods)] *)
Fixpoint run_methods (project : str) (cmd : nat) (methods : list nat) (w : World)
  : option completed * World :=
  match methods with
  | [] => (None, w)
  | method :: rest =>
      match run_list project cmd method w with
      | (Some result, w') => (Some result, w')
      | (None, w') => run_methods project cmd rest w'
      end
  end.

Definition combined_output (result : completed) : str :=
  (if truthy (stdout result) then stdout result else [])
  ++ (if truthy (stderr result) then nl ++ stderr result else []).

(** [for i, cmd in enumerate(commands_to_try)] *)
Fixpoint try_commands (project : str) (cmds : list nat) (w : World)
  : option str * World :=
  match cmds with
  | [] => (None, w)
  | cmd :: rest =>
      match run_methods project cmd [0; 1; 2] w with
      | (None, w') => try_commands project rest w'
      | (Some result, w') =>
          if truthy (strip (combined_output result))
          then (Some (combined_output result), w')
          else try_commands project rest w'
      end
  end.

(** [list_deployments(project, token)] *)
Definition list_deployments (project : str) (w : World) : option str * World :=
  try_commands project [0; 1; 2] w.

(** [delete_deployment(deployment_url, token)] *)
Definition delete_deployment (deployment_url : str) (w : World) : bool * World :=
  match run_delete deployment_url w with
  | (Some result, w') => (Z.eqb (returncode result) 0, w')
  | (None, w') => (false, w')
  end.

Record cleanup := {
  success_count : nat;
  attempted : nat;
  world : World;
  actions : list action
}.

(** [for i, (deployment_url, status) in enumerate(deployments, 1)] *)
Fixpoint delete_loop (total : nat) (items : list (nat * deployment)) (c : cleanup)
  : cleanup :=
  match items with
  | [] => c
  | (i, (deployment_url, status)) :: rest =>
      if Nat.eqb i 1 then
        delete_loop total rest
          {| success_count := success_count c; attempted := attempted c;
             world := world c;
             actions := actions c ++ [Keep deployment_url status] |}
      else
        let (ok, w) := delete_deployment deployment_url (world c) in
        delete_loop total rest
          {| success_count := if ok then success_count c + 1 else success_count c;
             attempted := attempted c + 1;
             world := w;
             actions := actions c ++ [Delete deployment_url status ok]
                        ++ (if i <? total then [Sleep] else []) |}
  end.

(** [cleanup_project_deployments(project, token)]; the script returns the
    pair [(success_count, attempted)]. *)
Definition cleanup_project_deployments (project : str) (w : World) : cleanup :=
  let (output, w) := list_deployments project w in
  match output with
  | None | Some [] =>
      {| success_count := 0; attempted := 0; world := w;
         actions := [ListFailed project] |}
  | Some output =>
      let deployments := parse_deployments unicode_alnum auto_confirm output in
      match deployments with
      | [] =>
          {| success_count := 0; attempted := 0; world := w;
             actions := [NothingToClean project] |}
      | _ :: _ =>
          delete_loop (length deployments) (enumerate 1 deployments)
            {| success_count := 0; attempted := 0; world := w; actions := [] |}
      end
  end.

(** The loop of [main] over the projects, with the totals it adds up. *)
Fixpoint process_projects (projects : list str) (c : cleanup) : cleanup :=
  match projects with
  | [] => c
  | project :: rest =>
      let r := cleanup_project_deployments project (world c) in
      process_projects rest
        {| success_count := success_count c + success_count r;
           attempted := attempted c + attempted r;
           world := world r;
           actions := actions c ++ actions r |}
  end.

(** The exit status of [main] once the projects are processed. *)
Definition exit_code (c : cleanup) : nat :=
  if success_count c <? attempted c then 1 else 0.

Definition is_delete (a : action) : bool :=
  match a with Delete _ _ _ => true | _ => false end.

(** The deployments handed to the deleter, in call order. *)
Definition deleted (acts : list action) : list deployment :=
  flat_map (fun a => match a with Delete u s _ => [(u, s)] | _ => [] end) acts.

(** The deployments kept. *)
Definition retained (acts : list action) : list deployment :=
  flat_map (fun a => match a with Keep u s => [(u, s)] | _ => [] end) acts.

End Orchestrator.

(** ** Vocabulary of the statements *)

(** [s] spells [kw] up to letter case, as [re.IGNORECASE] compares. *)
Fixpoint ci_eq (kw s : str) : bool :=
  match kw, s with
  | [], [] => true
  | a :: kw', x :: s' => (lit_match true a x && ci_eq kw' s')%bool
  | _, _ => false
  end.

Fixpoint startswith_ci (kw s : str) : bool :=
  match kw, s with
  | [], _ => true
  | a :: kw', x :: s' => (lit_match true a x && startswith_ci kw' s')%bool
  | _ :: _, [] => false
  end.

Fixpoint contains_ci (kw s : str) : bool :=
  (startswith_ci kw s ||
   match s with
   | [] => false
   | _ :: t => contains_ci kw t
   end)%bool.

(** A spelling of Building or Queued. *)
Definition is_status (s : str) : bool :=
  (ci_eq (lit "Building") s || ci_eq (lit "Queued") s)%bool.

(** A spelling of the truncated Build or Queue. *)
Definition is_partial_status (s : str) : bool :=
  (ci_eq (lit "Build") s || ci_eq (lit "Queue") s)%bool.

(** The line carries neither Building nor Queued in any letter case. *)
Definition no_status_word (line : str) : bool :=
  (negb (contains_ci (lit "Building") line) && negb (contains_ci (lit "Queued") line))%bool.

(** The line carries no transient status in any letter case, whole or
    truncated. *)
Definition no_status_text (line : str) : bool :=
  (negb (contains_ci (lit "build") line) && negb (contains_ci (lit "queue") line))%bool.

(** A URL as the patterns take it: [https://], in the letter case the flag
    allows, and at least one code point that is not white space. *)
Definition is_url (ignorecase : bool) (u : str) : Prop :=
  exists h body,
    u = h ++ body /\ length h = 8 /\
    (if ignorecase then ci_eq https h = true else h = https) /\
    body <> [] /\ forallb (fun c => negb (is_space c)) body = true.

Definition blank (l : str) : bool := negb (truthy (strip l)).

(** The data rows of the first loop: the lines below the header that are
    not blank. *)
Definition data_rows (below : list str) : list str :=
  filter (fun l => negb (blank l)) below.

(** A run that raises, a timeout included, or prints only white space. *)
Definition no_output (r : option completed) : bool :=
  match r with
  | None => true
  | Some result => negb (truthy (strip (combined_output result)))
  end.

Section Vocabulary.

Variable unicode_alnum : char -> bool.

(** What the body of the first loop appends for a data row. *)
Definition row_records (row : str) : list deployment :=
  deployments (parse_row unicode_alnum row init_vars).

(** The row matches pattern 1 or pattern 2 of the first loop. *)
Definition is_transient_row (row : str) : bool :=
  match re_search unicode_alnum true pattern1 row,
        re_search unicode_alnum true pattern2 row with
  | None, None => false
  | _, _ => true
  end.

(** The second loop skips the line: blank, a pagination hint or the help
    text. *)
Definition fallback_skips (original_line : str) : bool :=
  let line := strip original_line in
  (negb (truthy line) || startswith (lit ">") line
   || startswith (lit "You can learn more") line)%bool.

(** What the second loop appends for line [i]. *)
Definition fallback_records (lines : list str) (i : nat) (original_line : str)
  : list deployment :=
  if fallback_skips original_line then []
  else deployments (fallback_row unicode_alnum lines i original_line init_vars).

(** The status word of line [j], as the neighbour search reads it. *)
Definition status_at (lines : list str) (j : nat) : option str :=
  match re_search unicode_alnum true status_word (strip (nth j lines [])) with
  | Some m => Some (group m 1)
  | None => None
  end.

(** The first neighbour of line [i] in [search_range] with a status word. *)
Fixpoint neighbour_found (lines : list str) (i : nat) (search_range : list nat)
  : option (nat * str) :=
  match search_range with
  | [] => None
  | j :: rest =>
      if Nat.eqb i j then neighbour_found lines i rest
      else match status_at lines j with
           | Some st => Some (j, st)
           | None => neighbour_found lines i rest
           end
  end.

(** The lines the neighbour search of line [i] looks at, [i] included. *)
Definition window (lines : list str) (i : nat) : list nat :=
  range (i - 2) (Nat.min (length lines) (i + 3)).

(** What the last strategy guesses for line [i] of its three. *)
Definition guess (item : nat * str) : list deployment :=
  let (i, url_line) := item in
  match re_search unicode_alnum false bare_url url_line with
  | Some m => [(group m 1, if Nat.eqb i 0 then lit "Building" else lit "Queued")]
  | None => []
  end.

End Vocabulary.

(** [https://] followed by a code point that is not white space. *)
Definition has_url (l : str) : Prop :=
  exists pre c post, l = pre ++ https ++ c :: post /\ is_space c = false.

Definition status_ok (st : str) : bool := (is_status st || is_partial_status st)%bool.

Definition is_header_event (ev : event) : bool :=
  match ev with LogHeader _ _ => true | _ => false end.

Definition header_events (evs : list event) : list event :=
  filter is_header_event evs.

(** The header event of the first line, counted from [n], that holds a
    header keyword. *)
Fixpoint first_header (n : nat) (lines : list str) : list event :=
  match lines with
  | [] => []
  | l :: t => if has_header_keyword l then [LogHeader n l] else first_header (S n) t
  end.

(** ** Example runs *)

(** A table for [str.isalnum] outside ASCII that knows no letter there; the
    examples below use ASCII text and the bullet only. *)
Definition no_unicode_alnum : char -> bool := fun _ => false.

(** Lines joined with newlines, as the lister prints them. *)
Fixpoint unlines (ls : list str) : str :=
  match ls with
  | [] => []
  | [l] => l
  | l :: t => l ++ nl ++ unlines t
  end.

(** A table of three deployments, the first of them Ready. *)
Definition demo_output : str :=
  unlines
    [ lit "Age  Deployment  Status  Environment  Duration";
      lit "1d  https://demo-c.vercel.app  " ++ [bullet] ++ lit " Ready  Production  30s";
      lit "2d  https://demo-a.vercel.app  " ++ [bullet] ++ lit " Building  Production  --";
      lit "3d  https://demo-b.vercel.app  " ++ [bullet] ++ lit " Queued  Production  --" ].

(** A lister whose first call prints [output] on its standard output. *)
Definition lister_printing (output : str)
  : str -> nat -> nat -> unit -> option completed * unit :=
  fun _ _ _ w => (Some {| returncode := 0; stdout := output; stderr := [] |}, w).

(** A lister every call of which times out. *)
Definition lister_timing_out : str -> nat -> nat -> unit -> option completed * unit :=
  fun _ _ _ w => (None, w).

(** A deleter that always fails, and one that always succeeds. *)
Definition deleter_failing : str -> unit -> option completed * unit :=
  fun _ w => (Some {| returncode := 1; stdout := []; stderr := [] |}, w).

Definition deleter_ok : str -> unit -> option completed * unit :=
  fun _ w => (Some {| returncode := 0; stdout := []; stderr := [] |}, w).

Definition demo : str := lit "demo".

(** A table row [age  url  ● status]. *)
Definition table_row (age url status : string) : str :=
  lit age ++ lit "  " ++ lit url ++ lit "  " ++ [bullet] ++ lit " " ++ lit status.

(** Eleven lines without a header, each with a URL and a status. *)
Definition eleven_rows : str :=
  unlines
    (List.map (fun n => lit "https://d" ++ [N.of_nat (48 + n)] ++ lit ".vercel.app "
                        ++ [bullet] ++ lit " Building")
              (seq 0 10)
     ++ [lit "https://d10.vercel.app " ++ [bullet] ++ lit " Building"]).


(** Four lines with [https://], the first without anything after it. *)
Definition four_url_lines : str :=
  unlines
    [ lit "https://";
      lit "https://a.vercel.app";
      lit "https://b.vercel.app";
      lit "https://c.vercel.app" ].



(** A header and, below it, a second line with a header keyword. *)
Definition two_headers : str :=
  unlines
    [ lit "Age  Deployment  Status";
      table_row "1d" "https://demo-a.vercel.app" "Building" ++ lit "  Status" ].

(** Four lines, each a URL and nothing else. *)
Definition four_urls : str :=
  unlines
    [ lit "https://a.vercel.app";
      lit "https://b.vercel.app";
      lit "https://c.vercel.app";
      lit "https://d.vercel.app" ].

(** A Ready row whose URL holds the word building. *)
Definition ready_with_building_url : str :=
  unlines
    [ lit "Age  Deployment  Status";
      table_row "1d" "https://my-building.vercel.app" "Ready" ].


(** A Ready row whose last column is the user name builder, above a
    Building row. *)
Definition ready_row_of_builder : str :=
  unlines
    [ lit "Age  Deployment  Status  Environment  Duration  Username";
      table_row "1d" "https://demo-c.vercel.app" "Ready"
        ++ lit "  Production  30s  builder";
      table_row "2d" "https://demo-a.vercel.app" "Building"
        ++ lit "  Production  --  builder" ].

(** A URL after two blanks, between two lines with a status word. *)
Definition indented_url_lines : list str :=
  [ lit "queued"; lit "  https://a.vercel.app"; lit "building" ].

Definition is_fallback_row_event (ev : event) : bool :=
  match ev with LogFallbackRow _ _ => true | _ => false end.

Definition is_fallback_cap_event (ev : event) : bool :=
  match ev with LogFallbackCap => true | _ => false end.

(** ** The project list, the check of the tool and [main] *)

Definition comma : char := 44%N.

(** [s.split(sep)] for a separator of one code point: never empty. *)
Fixpoint split_char (sep : char) (s : str) : list str :=
  match s with
  | [] => [[]]
  | c :: t =>
      if N.eqb c sep then [] :: split_char sep t
      else match split_char sep t with
           | l :: ls => (c :: l) :: ls
           | [] => [[c]]
           end
  end.

(** [sep.join(parts)] *)
Fixpoint join (sep : str) (parts : list str) : str :=
  match parts with
  | [] => []
  | [p] => p
  | p :: rest => p ++ sep ++ join sep rest
  end.

(** [[p.strip() for p in value.split(',') if p.strip()]] *)
Definition project_names (value : str) : list str :=
  List.map strip (filter (fun p => truthy (strip p)) (split_char comma value)).

Section Main.

Variable unicode_alnum : char -> bool.
Variable auto_confirm : bool.

(** [os.getenv(name)]: the environment of the process. *)
Variable getenv : str -> option str.

Variable World : Type.
Variable run_list : str -> nat -> nat -> World -> option completed * World.
Variable run_delete : str -> World -> option completed * World.

(** [subprocess.run(['vercel', '--version'])]; [None] when the tool is not
    found. *)
Variable run_version : World -> option completed * World.

(** [os.getenv(name, default)] *)
Definition getenv_or (name default : str) : str :=
  match getenv name with Some v => v | None => default end.

(** [get_project_list()] *)
Definition get_project_list : list str :=
  let input_projects := strip (getenv_or (lit "INPUT_PROJECTS") []) in
  if truthy input_projects then project_names input_projects
  else
    let default_projects := strip (getenv_or (lit "DEFAULT_PROJECTS") []) in
    if truthy default_projects then project_names default_projects
    else [].

(** [check_vercel_cli()] *)
Definition check_vercel_cli (w : World) : bool * World :=
  match run_version w with
  | (Some result, w') => (Z.eqb (returncode result) 0, w')
  | (None, w') => (false, w')
  end.

Definition no_totals (w : World) : cleanup World :=
  {| success_count := 0; attempted := 0; world := w; actions := [] |}.

(** [main()]: the exit status, with the totals and what was done. *)
Definition main (w : World) : nat * cleanup World :=
  let (cli, w) := check_vercel_cli w in
  if negb cli then (1, no_totals w)
  else
    match getenv (lit "VERCEL_CLI_TOKEN") with
    | None | Some [] => (1, no_totals w)
    | Some (_ :: _) =>
        match get_project_list with
        | [] => (0, no_totals w)
        | projects =>
            let c := process_projects unicode_alnum auto_confirm run_list run_delete
                       projects (no_totals w) in
            (exit_code c, c)
        end
    end.

End Main.

(** ** Vocabulary of the further statements *)

(** The deleter calls that failed are the [Delete] actions with [false]. *)
Definition delete_ok (a : action) : bool :=
  match a with Delete _ _ ok => ok | _ => true end.

Definition is_success (a : action) : bool :=
  match a with Delete _ _ ok => ok | _ => false end.

(** The counters agree with the calls made: as many attempts as calls of
    the deleter, as many successes as calls it answered with success. *)
Definition counted {World : Type} (c : cleanup World) : Prop :=
  attempted c = length (filter is_delete (actions c)) /\
  success_count c = length (filter is_success (actions c)).

(** [xs] with [x] between its elements. *)
Fixpoint intersperse {A} (x : A) (xs : list A) : list A :=
  match xs with
  | [] => []
  | [y] => [y]
  | y :: rest => y :: x :: intersperse x rest
  end.

(** The deleter calls for the records [ds] with the answers [oks]. *)
Definition delete_calls (ds : list deployment) (oks : list bool) : list action :=
  List.map (fun p => Delete (fst (fst p)) (snd (fst p)) (snd p)) (combine ds oks).

(** Two runs that printed the same, whatever their exit status. *)
Definition same_print (r r' : option completed) : Prop :=
  match r, r' with
  | None, None => True
  | Some a, Some b => stdout a = stdout b /\ stderr a = stderr b
  | _, _ => False
  end.

(** A project name as [get_project_list] returns it: not empty, no white
    space at either end, no comma. *)
Definition clean_name (p : str) : Prop :=
  p <> [] /\ strip p = p /\ existsb (N.eqb comma) p = false.

Fixpoint str_eqb (a b : str) : bool :=
  match a, b with
  | [], [] => true
  | x :: a', y :: b' => (N.eqb x y && str_eqb a' b')%bool
  | _, _ => false
  end.

(** An environment with the two project lists and the token. *)
Definition env_of (input default token : option str) : str -> option str :=
  fun name =>
    if str_eqb name (lit "INPUT_PROJECTS") then input
    else if str_eqb name (lit "DEFAULT_PROJECTS") then default
    else if str_eqb name (lit "VERCEL_CLI_TOKEN") then token
    else None.

Definition version_ok : unit -> option completed * unit :=
  fun w => (Some {| returncode := 0; stdout := lit "Vercel CLI 33.0.0"; stderr := [] |}, w).

(** A table with the same row twice. *)
Definition duplicate_rows : str :=
  unlines
    [ lit "Age  Deployment  Status";
      table_row "1d" "https://demo-a.vercel.app" "Building";
      table_row "1d" "https://demo-a.vercel.app" "Building" ].

(** A header and twelve rows. *)
Definition twelve_rows : str :=
  unlines
    (lit "Age  Deployment  Status"
     :: List.map (fun n => lit "1d  https://d" ++ [N.of_nat (97 + n)]
                           ++ lit ".vercel.app  Queued")
                 (seq 0 12)).


(** A lister that fails with an error message and a non-zero status. *)
Definition lister_failing_loudly : str -> nat -> nat -> unit -> option completed * unit :=
  fun _ _ _ w =>
    (Some {| returncode := 1; stdout := [];
             stderr := lit "Error: see https://vercel.com/docs Building" |}, w).

(** * Properties *)

(** ** Strings *)

Lemma startswith_app (p s : str) :
  startswith p s = true <-> exists t, s = p ++ t.
Proof.
  revert s; induction p as [|a p IH]; intros s; simpl.
  - split; [intros _; now exists s | reflexivity].
  - destruct s as [|b s]; simpl.
    + split; [discriminate | intros [t H]; discriminate].
    + rewrite andb_true_iff, IH. unfold char_eqb. rewrite N.eqb_eq.
      split.
      * intros [-> [t ->]]. now exists t.
      * intros [t H]. injection H as -> ->. split; [reflexivity | now exists t].
Qed.

Lemma contains_app (p s : str) :
  contains p s = true <-> exists a b, s = a ++ p ++ b.
Proof.
  induction s as [|c s IH].
  - simpl. rewrite orb_false_r, startswith_app. split.
    + intros [t H]. now exists [], t.
    + intros [a [b H]]. destruct a; simpl in H.
      * now exists b.
      * discriminate.
  - cbn [contains]. rewrite orb_true_iff, startswith_app, IH. split.
    + intros [[t H] | [a [b H]]].
      * now exists [], t.
      * exists (c :: a), b. now rewrite H.
    + intros [a [b H]]. destruct a as [|x a]; simpl in H.
      * left. now exists b.
      * right. injection H as _ H. now exists a, b.
Qed.

Lemma lstrip_suffix (s : str) : exists sp, s = sp ++ lstrip s /\ forallb is_space sp = true.
Proof.
  induction s as [|c s [sp [IH1 IH2]]]; simpl.
  - now exists [].
  - destruct (is_space c) eqn:E.
    + exists (c :: sp). simpl. rewrite E, IH2. split; [now f_equal | reflexivity].
    + now exists [].
Qed.

Lemma strip_decompose (s : str) :
  exists l r, s = l ++ strip s ++ r /\
              forallb is_space l = true /\ forallb is_space r = true.
Proof.
  destruct (lstrip_suffix s) as [l [Hl Hl']].
  destruct (lstrip_suffix (rev (lstrip s))) as [r [Hr Hr']].
  exists l, (rev r). unfold strip, rstrip. split; [|split].
  - rewrite Hl at 1. f_equal.
    rewrite <- rev_app_distr, <- Hr. now rewrite rev_involutive.
  - exact Hl'.
  - rewrite forallb_forall in *. intros x Hx. apply Hr'. now apply in_rev.
Qed.

Lemma lstrip_head (s : str) (c : char) (t : str) :
  lstrip s = c :: t -> is_space c = false.
Proof.
  induction s as [|x s IH]; simpl; [discriminate|].
  destruct (is_space x) eqn:E; [exact IH|].
  intros H. injection H as <- _. exact E.
Qed.

Lemma lstrip_all_space (s : str) :
  forallb is_space s = true -> lstrip s = [].
Proof.
  induction s as [|x s IH]; simpl; [reflexivity|].
  destruct (is_space x); simpl; [exact IH | discriminate].
Qed.

Lemma lstrip_nonspace (c : char) (s : str) :
  is_space c = false -> lstrip (c :: s) = c :: s.
Proof. intros H. simpl. now rewrite H. Qed.

Lemma lstrip_app_space (sp s : str) :
  forallb is_space sp = true -> lstrip (sp ++ s) = lstrip s.
Proof.
  induction sp as [|x sp IH]; simpl; [reflexivity|].
  destruct (is_space x); simpl; [exact IH | discriminate].
Qed.

Lemma bool_eq_iff (a b : bool) : (a = true <-> b = true) -> a = b.
Proof.
  destruct a, b; intros [H1 H2]; try reflexivity.
  - symmetry. now apply H1.
  - now apply H2.
Qed.

Lemma contains_lstrip (c : char) (kw s : str) :
  is_space c = false -> contains (c :: kw) (lstrip s) = contains (c :: kw) s.
Proof.
  intros Hc. induction s as [|x s IH]; [reflexivity|].
  cbn [lstrip]. destruct (is_space x) eqn:E; [|reflexivity].
  rewrite IH. cbn [contains startswith].
  replace (char_eqb c x) with false; [reflexivity|].
  symmetry. unfold char_eqb. apply N.eqb_neq. intros ->. congruence.
Qed.

Lemma contains_rev (kw s : str) : contains kw (rev s) = contains (rev kw) s.
Proof.
  apply bool_eq_iff. rewrite !contains_app. split.
  - intros [a [b H]]. exists (rev b), (rev a).
    rewrite <- (rev_involutive s), H, !rev_app_distr. now rewrite <- app_assoc.
  - intros [a [b H]]. exists (rev b), (rev a).
    rewrite H, !rev_app_distr, rev_involutive. now rewrite <- app_assoc.
Qed.

(** A word without white space at either end is in the stripped line exactly
    when it is in the line. *)
Lemma contains_strip (kw s : str) :
  (exists c t, kw = c :: t /\ is_space c = false) ->
  (exists c t, rev kw = c :: t /\ is_space c = false) ->
  contains kw (strip s) = contains kw s.
Proof.
  intros [c [t [-> Hc]]] [c' [t' [Hr Hc']]].
  unfold strip, rstrip.
  rewrite contains_rev, Hr, contains_lstrip by exact Hc'.
  rewrite <- Hr, <- contains_rev, rev_involutive.
  now apply contains_lstrip.
Qed.

Lemma has_header_keyword_strip (l : str) :
  has_header_keyword (strip l) = has_header_keyword l.
Proof.
  unfold has_header_keyword, header_keywords. cbn [existsb].
  repeat (rewrite contains_strip;
          [| eexists; eexists; split; [reflexivity | reflexivity]
           | eexists; eexists; split; [reflexivity | reflexivity]]).
  reflexivity.
Qed.

Lemma has_header_keyword_not_blank (l : str) :
  has_header_keyword l = true -> blank l = false.
Proof.
  rewrite <- has_header_keyword_strip. unfold blank.
  destruct (strip l); [discriminate | reflexivity].
Qed.

(** ** The matcher is sound for a declarative reading of the patterns *)

Section RegexFacts.

Variable unicode_alnum : char -> bool.
Variable ignorecase : bool.

Abbreviation matcher := (mtch unicode_alnum ignorecase).
Abbreviation reads := (runs unicode_alnum ignorecase).

Lemma many_greedy_sound (p : char -> bool) (k : str -> str -> option captures)
      (aft : str) :
  forall min bef out,
    many_greedy p k min bef aft = Some out ->
    exists cs aft', aft = cs ++ aft' /\ forallb p cs = true /\
                    min <= length cs /\ k (rev cs ++ bef) aft' = Some out.
Proof.
  induction aft as [|x t IH]; intros min bef out H; cbn [many_greedy] in H.
  - destruct (Nat.eqb_spec min 0) as [->|]; [|discriminate].
    exists [], []. repeat split; auto.
  - assert (Hstop : (if Nat.eqb min 0 then k bef (x :: t) else None) = Some out ->
                    exists cs aft', x :: t = cs ++ aft' /\ forallb p cs = true /\
                                    min <= length cs /\ k (rev cs ++ bef) aft' = Some out).
    { destruct (Nat.eqb_spec min 0) as [->|]; [|discriminate].
      intros Hk. exists [], (x :: t). repeat split; auto. }
    destruct (p x) eqn:Hp; [|auto].
    destruct (many_greedy p k (pred min) (x :: bef) t) as [e|] eqn:Hrec; [|auto].
    injection H as ->.
    destruct (IH _ _ _ Hrec) as [cs [aft' [E [Hall [Hmin Hk]]]]].
    exists (x :: cs), aft'. cbn [forallb length rev]. rewrite Hp, Hall, E.
    repeat split; [lia|]. now rewrite <- app_assoc.
Qed.

Lemma many_lazy_sound (p : char -> bool) (k : str -> str -> option captures)
      (aft : str) :
  forall min bef out,
    many_lazy p k min bef aft = Some out ->
    exists cs aft', aft = cs ++ aft' /\ forallb p cs = true /\
                    min <= length cs /\ k (rev cs ++ bef) aft' = Some out.
Proof.
  induction aft as [|x t IH]; intros min bef out H; cbn [many_lazy] in H.
  - destruct (Nat.eqb_spec min 0) as [->|].
    + destruct (k bef []) eqn:Hk; [|discriminate].
      injection H as ->. exists [], []. repeat split; auto.
    + discriminate.
  - destruct (if Nat.eqb min 0 then k bef (x :: t) else None) as [e|] eqn:Hstop.
    + injection H as ->.
      destruct (Nat.eqb_spec min 0) as [->|]; [|discriminate].
      exists [], (x :: t). repeat split; auto.
    + destruct (p x) eqn:Hp; [|discriminate].
      destruct (IH _ _ _ H) as [cs [aft' [E [Hall [Hmin Hk]]]]].
      exists (x :: cs), aft'. cbn [forallb length rev]. rewrite Hp, Hall, E.
      repeat split; [lia|]. now rewrite <- app_assoc.
Qed.

(** Soundness: a successful match runs the pattern and then its continuation. *)
Lemma mtch_sound (r : re) :
  forall k bef aft e out,
    matcher r k bef aft e = Some out ->
    exists bef' aft' e',
      reads r bef aft e bef' aft' e' /\ k bef' aft' e' = Some out.
Proof.
  induction r as [|c| | |g min c|a IHa b IHb|a IHa b IHb|n a IHa];
    intros k bef aft e out H; cbn [mtch] in H.
  - exists bef, aft, e. split; [|exact H]. cbn; auto.
  - destruct aft as [|x t]; [discriminate|].
    destruct (lit_match ignorecase c x) eqn:Hm; [|discriminate].
    exists (x :: bef), t, e. split; [|exact H]. exists x. auto.
  - destruct bef; [|discriminate].
    exists [], aft, e. split; [|exact H]. cbn; auto.
  - destruct (xorb _ _) eqn:Hx; [|discriminate].
    exists bef, aft, e. split; [|exact H]. cbn; auto.
  - destruct g.
    + apply many_greedy_sound in H. destruct H as [cs [aft' [E [Hall [Hmin Hk]]]]].
      exists (rev cs ++ bef), aft', e. split; [|exact Hk]. exists cs. auto.
    + apply many_lazy_sound in H. destruct H as [cs [aft' [E [Hall [Hmin Hk]]]]].
      exists (rev cs ++ bef), aft', e. split; [|exact Hk]. exists cs. auto.
  - apply IHa in H. destruct H as [bef1 [aft1 [e1 [Ha H]]]].
    apply IHb in H. destruct H as [bef' [aft' [e' [Hb H]]]].
    exists bef', aft', e'. split; [|exact H]. exists bef1, aft1, e1. auto.
  - destruct (matcher a k bef aft e) eqn:Ha.
    + injection H as ->. apply IHa in Ha.
      destruct Ha as [bef' [aft' [e' [Hr Hk]]]].
      exists bef', aft', e'. split; [left; exact Hr | exact Hk].
    + apply IHb in H. destruct H as [bef' [aft' [e' [Hr Hk]]]].
      exists bef', aft', e'. split; [right; exact Hr | exact Hk].
  - apply IHa in H. destruct H as [bef' [aft' [e' [Hr Hk]]]].
    exists bef', aft', ((n, span bef bef') :: e'). split; [|exact Hk].
    exists e'. auto.
Qed.

(** A run reads a piece [cs] of the text, in order. *)
Lemma runs_reads (r : re) :
  forall bef aft e bef' aft' e',
    reads r bef aft e bef' aft' e' ->
    exists cs, aft = cs ++ aft' /\ bef' = rev cs ++ bef.
Proof.
  induction r as [|c| | |g min c|a IHa b IHb|a IHa b IHb|n a IHa];
    intros bef aft e bef' aft' e' H; cbn [runs] in H.
  - destruct H as [-> [-> _]]. now exists [].
  - destruct H as [x [-> [_ [-> _]]]]. now exists [x].
  - destruct H as [_ [-> [-> _]]]. now exists [].
  - destruct H as [_ [-> [-> _]]]. now exists [].
  - destruct H as [cs [-> [-> _]]]. now exists cs.
  - destruct H as [bef1 [aft1 [e1 [Ha Hb]]]].
    apply IHa in Ha. apply IHb in Hb.
    destruct Ha as [cs1 [-> ->]], Hb as [cs2 [-> ->]].
    exists (cs1 ++ cs2). now rewrite rev_app_distr, <- !app_assoc.
  - destruct H as [H|H]; [now apply IHa in H | now apply IHb in H].
  - destruct H as [e1 [H _]]. now apply IHa in H.
Qed.

Lemma span_read (cs bef : str) : span bef (rev cs ++ bef) = cs.
Proof.
  unfold span. rewrite length_app, length_rev.
  replace (length cs + length bef - length bef) with (length (rev cs))
    by (rewrite length_rev; lia).
  rewrite firstn_app, firstn_all, Nat.sub_diag. cbn [firstn].
  now rewrite app_nil_r, rev_involutive.
Qed.

Lemma search_from_sound (r : re) (aft : str) :
  forall bef out,
    search_from unicode_alnum ignorecase r bef aft = Some out ->
    exists pre rest bef' aft',
      aft = pre ++ rest /\
      reads r (rev pre ++ bef) rest [] bef' aft' out.
Proof.
  induction aft as [|x t IH]; intros bef out H; cbn [search_from] in H.
  - destruct (matcher r accept bef [] []) eqn:Hm; [|discriminate].
    injection H as ->. apply mtch_sound in Hm.
    destruct Hm as [bef' [aft' [e' [Hr Hk]]]]. injection Hk as ->.
    now exists [], [], bef', aft'.
  - destruct (matcher r accept bef (x :: t) []) eqn:Hm.
    + injection H as ->. apply mtch_sound in Hm.
      destruct Hm as [bef' [aft' [e' [Hr Hk]]]]. injection Hk as ->.
      now exists [], (x :: t), bef', aft'.
    + apply IH in H. destruct H as [pre [rest [bef' [aft' [E Hr]]]]].
      exists (x :: pre), rest, bef', aft'. split; [now rewrite E|].
      cbn [rev]. now rewrite <- app_assoc.
Qed.

(** [re.search] found a match: the pattern runs from some position of the
    text. *)
Lemma re_search_sound (r : re) (text : str) (out : captures) :
  re_search unicode_alnum ignorecase r text = Some out ->
  exists pre rest bef' aft',
    text = pre ++ rest /\ reads r (rev pre) rest [] bef' aft' out.
Proof.
  intros H. apply search_from_sound in H.
  destruct H as [pre [rest [bef' [aft' [E Hr]]]]].
  rewrite app_nil_r in Hr. now exists pre, rest, bef', aft'.
Qed.

End RegexFacts.

(** ** What the patterns of the script capture *)

Section PatternFacts.

Variable unicode_alnum : char -> bool.

Abbreviation run_on := (runs unicode_alnum).

(** A pattern without groups leaves the groups alone. *)
Lemma runs_plain (ic : bool) (r : re) :
  ngroups r = 0 ->
  forall bef aft e bef' aft' e',
    run_on ic r bef aft e bef' aft' e' -> e' = e.
Proof.
  induction r as [|c| | |g min c|a IHa b IHb|a IHa b IHb|n a IHa];
    cbn [ngroups]; intros Hn bef aft e bef' aft' e' H; cbn [runs] in H.
  - now destruct H as [_ [_ ->]].
  - now destruct H as [x [_ [_ [_ ->]]]].
  - now destruct H as [_ [_ [_ ->]]].
  - now destruct H as [_ [_ [_ ->]]].
  - now destruct H as [cs [_ [_ [_ [_ ->]]]]].
  - destruct H as [bef1 [aft1 [e1 [Ha Hb]]]].
    apply IHa in Ha; [|lia]. apply IHb in Hb; [|lia]. congruence.
  - destruct H as [H|H]; [apply IHa in H | apply IHb in H]; auto; lia.
  - discriminate.
Qed.

(** Every group a run binds holds a piece of the text. *)
Lemma runs_groups (ic : bool) (r : re) :
  forall bef aft e bef' aft' e',
    run_on ic r bef aft e bef' aft' e' ->
    exists new, e' = new ++ e /\
      forall n s, In (n, s) new -> exists x y, rev bef ++ aft = x ++ s ++ y.
Proof.
  induction r as [|c| | |g min c|a IHa b IHb|a IHa b IHb|n a IHa];
    intros bef aft e bef' aft' e' H.
  - exists []. split; [|intros ? ? []]. cbn in H. now destruct H as [_ [_ ->]].
  - exists []. split; [|intros ? ? []]. cbn in H. now destruct H as [x [_ [_ [_ ->]]]].
  - exists []. split; [|intros ? ? []]. cbn in H. now destruct H as [_ [_ [_ ->]]].
  - exists []. split; [|intros ? ? []]. cbn in H. now destruct H as [_ [_ [_ ->]]].
  - exists []. split; [|intros ? ? []]. cbn in H. now destruct H as [cs [_ [_ [_ [_ ->]]]]].
  - cbn [runs] in H. destruct H as [bef1 [aft1 [e1 [Ha Hb]]]].
    pose proof (runs_reads _ _ _ _ _ _ _ _ _ Ha) as [cs [E1 E2]].
    apply IHa in Ha. apply IHb in Hb.
    destruct Ha as [new1 [-> Hin1]], Hb as [new2 [-> Hin2]].
    exists (new2 ++ new1). split; [now rewrite app_assoc|].
    intros n s Hin. apply in_app_or in Hin. destruct Hin as [Hin|Hin].
    + apply Hin2 in Hin. destruct Hin as [x [y Hxy]]. exists x, y.
      rewrite <- Hxy, E1, E2, rev_app_distr, rev_involutive.
      now rewrite <- app_assoc.
    + now apply Hin1 in Hin.
  - cbn [runs] in H. destruct H as [H|H]; [now apply IHa in H | now apply IHb in H].
  - cbn [runs] in H. destruct H as [e1 [H ->]].
    pose proof (runs_reads _ _ _ _ _ _ _ _ _ H) as [cs [E1 E2]].
    apply IHa in H. destruct H as [new [-> Hin]].
    exists ((n, span bef bef') :: new). split; [reflexivity|].
    intros m s [Heq|Hin']; [|now apply Hin in Hin'].
    injection Heq as _ <-. rewrite E2, span_read, E1.
    now exists (rev bef), aft'.
Qed.

Lemma runs_Str_ci (kw : str) :
  forall bef aft e bef' aft' e',
    run_on true (Str kw) bef aft e bef' aft' e' ->
    exists cs, aft = cs ++ aft' /\ bef' = rev cs ++ bef /\ e' = e /\
               ci_eq kw cs = true.
Proof.
  induction kw as [|c kw IH]; intros bef aft e bef' aft' e' H.
  { cbn in H. destruct H as [-> [-> ->]]. now exists []. }
  destruct kw as [|d kw].
  - cbn in H. destruct H as [x [-> [Hm [-> ->]]]].
    exists [x]. cbn. now rewrite Hm.
  - cbn [Str runs] in H.
    destruct H as [bef1 [aft1 [e1 [[x [-> [Hm [-> ->]]]] H]]]].
    apply IH in H.
    destruct H as [cs [-> [-> [-> Hci]]]].
    exists (x :: cs).
    change (ci_eq (c :: d :: kw) (x :: cs))
      with (lit_match true c x && ci_eq (d :: kw) cs)%bool.
    cbn [rev]. rewrite Hm, Hci, <- app_assoc. auto.
Qed.

Lemma runs_Str_exact (kw : str) :
  forall bef aft e bef' aft' e',
    run_on false (Str kw) bef aft e bef' aft' e' ->
    aft = kw ++ aft' /\ bef' = rev kw ++ bef /\ e' = e.
Proof.
  induction kw as [|c kw IH]; intros bef aft e bef' aft' e' H.
  { cbn in H. destruct H as [-> [-> ->]]. auto. }
  destruct kw as [|d kw].
  - cbn in H. destruct H as [x [-> [Hm [-> ->]]]].
    apply N.eqb_eq in Hm. subst. auto.
  - cbn [Str runs] in H.
    destruct H as [bef1 [aft1 [e1 [[x [-> [Hm [-> ->]]]] H]]]].
    apply N.eqb_eq in Hm. subst x.
    apply IH in H.
    destruct H as [-> [-> ->]]. cbn [rev]. rewrite <- !app_assoc. auto.
Qed.

Lemma ci_eq_length (kw s : str) : ci_eq kw s = true -> length s = length kw.
Proof.
  revert s; induction kw as [|c kw IH]; intros [|x s]; cbn; try discriminate; auto.
  rewrite andb_true_iff. intros [_ H]. f_equal. now apply IH.
Qed.

(** [(https://[^\s]+)] binds group 1 to a URL. *)
Lemma runs_url_group (ic : bool) bef aft e bef' aft' e' :
  run_on ic url_group bef aft e bef' aft' e' ->
  exists u, is_url ic u /\ aft = u ++ aft' /\ bef' = rev u ++ bef /\
            e' = (1, u) :: e.
Proof.
  unfold url_group, nonspace1. cbn [runs].
  intros [e1 [[bef1 [aft1 [e2 [Hh [cs [E1 [E2 [Hall [Hmin E3]]]]]]]]] ->]].
  subst e1 aft1 bef'.
  assert (Hcs : cs <> []) by (destruct cs; [cbn in Hmin; lia | discriminate]).
  assert (Hh' : exists h, aft = h ++ cs ++ aft' /\ bef1 = rev h ++ bef /\ e2 = e /\
                          length h = 8 /\
                          (if ic then ci_eq https h = true else h = https)).
  { destruct ic.
    - apply runs_Str_ci in Hh.
      destruct Hh as [h [-> [-> [-> Hci]]]]. exists h. repeat split; auto.
      now apply ci_eq_length in Hci.
    - apply runs_Str_exact in Hh.
      destruct Hh as [-> [-> ->]]. exists https. repeat split; auto. }
  destruct Hh' as [h [-> [-> [-> [Hlen Hh']]]]].
  assert (E : rev cs ++ rev h ++ bef = rev (h ++ cs) ++ bef)
    by now rewrite rev_app_distr, <- app_assoc.
  exists (h ++ cs). rewrite E, span_read, <- app_assoc. repeat split; auto.
  exists h, cs. repeat split; auto.
Qed.

Lemma runs_words4 (w1 w2 w3 w4 : str) bef aft e bef' aft' e' :
  run_on true (Str w1 || Str w2 || Str w3 || Str w4) bef aft e bef' aft' e' ->
  exists st, aft = st ++ aft' /\ bef' = rev st ++ bef /\ e' = e /\
    (ci_eq w1 st || ci_eq w2 st || ci_eq w3 st || ci_eq w4 st)%bool = true.
Proof.
  cbn [runs]. intros [[[H|H]|H]|H];
    apply runs_Str_ci in H; destruct H as [st [-> [-> [-> Hci]]]];
    exists st; rewrite Hci, ?orb_true_r; auto.
Qed.

Lemma ci_eq_lower (s : str) :
  ci_eq (lit "building") s = ci_eq (lit "Building") s /\
  ci_eq (lit "queued") s = ci_eq (lit "Queued") s /\
  ci_eq (lit "build") s = ci_eq (lit "Build") s /\
  ci_eq (lit "queue") s = ci_eq (lit "Queue") s.
Proof. destruct s; repeat split; reflexivity. Qed.

(** [(Building|Queued|building|queued)] binds group 2 to a spelling of
    Building or Queued. *)
Lemma runs_status_group bef aft e bef' aft' e' :
  run_on true status_group bef aft e bef' aft' e' ->
  exists st, is_status st = true /\ aft = st ++ aft' /\ bef' = rev st ++ bef /\
             e' = (2, st) :: e.
Proof.
  unfold status_group, Word. cbn [runs]. intros [e1 [H ->]].
  apply runs_words4 in H.
  destruct H as [st [-> [-> [-> Hci]]]].
  exists st. rewrite span_read. repeat split; auto.
  unfold is_status. destruct (ci_eq_lower st) as [-> [-> _]] in Hci.
  destruct (ci_eq (lit "Building") st), (ci_eq (lit "Queued") st); auto.
Qed.

Lemma runs_partial_group bef aft e bef' aft' e' :
  run_on true partial_group bef aft e bef' aft' e' ->
  exists st, is_partial_status st = true /\ aft = st ++ aft' /\
             bef' = rev st ++ bef /\ e' = (2, st) :: e.
Proof.
  unfold partial_group, Word. cbn [runs]. intros [e1 [H ->]].
  apply runs_words4 in H.
  destruct H as [st [-> [-> [-> Hci]]]].
  exists st. rewrite span_read. repeat split; auto.
  unfold is_partial_status. destruct (ci_eq_lower st) as [_ [_ [-> ->]]] in Hci.
  destruct (ci_eq (lit "Build") st), (ci_eq (lit "Queue") st); auto.
Qed.

(** Unfolds a run of a sequence into the runs of its parts. *)
Ltac break_runs :=
  repeat match goal with
  | H : exists _, _ |- _ => destruct H as [? H]
  | H : _ /\ _ |- _ => destruct H as [? ?]
  | H : runs _ _ ws0 _ _ _ _ _ _ |- _ => apply runs_plain in H; [|reflexivity]
  | H : runs _ _ ws1 _ _ _ _ _ _ |- _ => apply runs_plain in H; [|reflexivity]
  | H : runs _ _ nonspace1 _ _ _ _ _ _ |- _ => apply runs_plain in H; [|reflexivity]
  | H : runs _ _ lazy_any _ _ _ _ _ _ |- _ => apply runs_plain in H; [|reflexivity]
  | H : runs _ _ url_group _ _ _ _ _ _ |- _ => apply runs_url_group in H
  | H : runs _ _ status_group _ _ _ _ _ _ |- _ => apply runs_status_group in H
  | H : runs _ _ partial_group _ _ _ _ _ _ |- _ => apply runs_partial_group in H
  end.

(** Each of the five patterns of the first loop binds group 1 to a URL and
    group 2 to a status, whole or truncated, that stands in the line. *)
Lemma patterns_capture (p : re) (line : str) (m : captures) :
  In p patterns ->
  re_search unicode_alnum true p line = Some m ->
  exists u st,
    m = [(2, st); (1, u)] /\ is_url true u /\
    (is_status st || is_partial_status st)%bool = true /\
    exists x y, line = x ++ st ++ y.
Proof.
  intros Hin Hs. apply re_search_sound in Hs.
  destruct Hs as [pre [rest [bef' [aft' [-> Hr]]]]].
  pose proof (runs_groups _ _ _ _ _ _ _ _ Hr) as [new [Hnew Hsub]].
  rewrite rev_involutive, app_nil_r in *. subst new.
  assert (G : exists u st, m = [(2, st); (1, u)] /\ is_url true u /\
                           (is_status st || is_partial_status st)%bool = true).
  { unfold patterns in Hin. cbn [In] in Hin.
    destruct Hin as [<-|[<-|[<-|[<-|[<-|[]]]]]];
      unfold pattern1, pattern2, pattern3, pattern4, pattern5 in Hr;
      cbn [runs] in Hr; break_runs; subst;
      eexists; eexists; (split; [reflexivity|]); split; try assumption;
      match goal with
      | H : is_status _ = true |- _ => rewrite H; reflexivity
      | H : is_partial_status _ = true |- _ => rewrite H; apply orb_true_r
      end. }
  destruct G as [u [st [-> [Hu Hst]]]].
  exists u, st. repeat split; auto.
  apply (Hsub 2 st). now left.
Qed.

(** Patterns 1 and 2 bind group 2 to a whole status. *)
Lemma pattern12_capture (p : re) (line : str) (m : captures) :
  p = pattern1 \/ p = pattern2 ->
  re_search unicode_alnum true p line = Some m ->
  exists u st, m = [(2, st); (1, u)] /\ is_url true u /\ is_status st = true /\
               contains u line = true /\ contains st line = true.
Proof.
  intros Hp Hs. apply re_search_sound in Hs.
  destruct Hs as [pre [rest [bef' [aft' [-> Hr]]]]].
  pose proof (runs_groups _ _ _ _ _ _ _ _ Hr) as [new [Hnew Hsub]].
  rewrite rev_involutive, app_nil_r in *. subst new.
  assert (G : exists u st, m = [(2, st); (1, u)] /\ is_url true u /\
                           is_status st = true).
  { destruct Hp as [->| ->]; unfold pattern1, pattern2 in Hr;
      cbn [runs] in Hr; break_runs; subst;
      eexists; eexists; (split; [reflexivity|]); split; assumption. }
  destruct G as [u [st [-> [Hu Hst]]]].
  exists u, st. repeat split; auto; apply contains_app.
  - apply (Hsub 1 u). right. now left.
  - apply (Hsub 2 st). now left.
Qed.

(** The two status patterns of the headerless loop. *)
Lemma fallback_status_capture (idx : nat) (p : re) (line : str) (m : captures) :
  idx < 2 -> nth_error fallback_patterns idx = Some p ->
  re_search unicode_alnum true p line = Some m ->
  exists u st,
    m = [(2, st); (1, u)] /\ is_url true u /\ is_status st = true /\
    exists x y, line = x ++ st ++ y.
Proof.
  intros Hidx Hp Hs. apply re_search_sound in Hs.
  destruct Hs as [pre [rest [bef' [aft' [-> Hr]]]]].
  pose proof (runs_groups _ _ _ _ _ _ _ _ Hr) as [new [Hnew Hsub]].
  rewrite rev_involutive, app_nil_r in *. subst new.
  assert (G : exists u st, m = [(2, st); (1, u)] /\ is_url true u /\
                           is_status st = true).
  { destruct idx as [|[|idx]]; [| |lia]; cbn in Hp; injection Hp as <-;
      unfold fallback_pattern1, fallback_pattern2 in Hr;
      cbn [runs] in Hr; break_runs; subst;
      eexists; eexists; (split; [reflexivity|]); split; assumption. }
  destruct G as [u [st [-> [Hu Hst]]]].
  exists u, st. repeat split; auto.
  apply (Hsub 2 st). now left.
Qed.

(** [^(https://[^\s]+)] binds group 1 to a URL the line starts with. *)
Lemma fallback_url_capture (line : str) (m : captures) :
  re_search unicode_alnum true fallback_pattern3 line = Some m ->
  exists u rest, m = [(1, u)] /\ is_url true u /\ line = u ++ rest.
Proof.
  intros Hs. apply re_search_sound in Hs.
  destruct Hs as [pre [rest [bef' [aft' [-> Hr]]]]].
  unfold fallback_pattern3 in Hr. cbn [runs] in Hr. break_runs. subst.
  assert (pre = []) as ->.
  { destruct pre as [|c pre]; [reflexivity|].
    match goal with H : rev (c :: pre) = [] |- _ =>
      apply (f_equal (@length _)) in H; rewrite length_rev in H; discriminate
    end. }
  eexists; eexists. split; [reflexivity|]. split; [assumption | reflexivity].
Qed.


(** [(https://[^\s]+)] without flags binds group 1 to a URL of the line. *)
Lemma bare_url_capture (line : str) (m : captures) :
  re_search unicode_alnum false bare_url line = Some m ->
  exists u, m = [(1, u)] /\ is_url false u /\ exists x y, line = x ++ u ++ y.
Proof.
  intros Hs. apply re_search_sound in Hs.
  destruct Hs as [pre [rest [bef' [aft' [-> Hr]]]]].
  apply runs_url_group in Hr. destruct Hr as [u [Hu [-> [-> ->]]]].
  exists u. repeat split; auto. now exists pre, aft'.
Qed.

(** ** Where the matcher must succeed *)

Lemma mtch_Str (ic : bool) (kw : str) :
  forall h k bef aft e,
    Forall2 (fun c x => lit_match ic c x = true) kw h ->
    mtch unicode_alnum ic (Str kw) k bef (h ++ aft) e = k (rev h ++ bef) aft e.
Proof.
  induction kw as [|c kw IH]; intros h k bef aft e Hf.
  { inversion Hf; subst. reflexivity. }
  inversion Hf as [|c0 x kw0 h' Hm Hf']; subst.
  destruct kw as [|d kw].
  - inversion Hf'; subst. cbn. now rewrite Hm.
  - cbn [Str mtch app]. rewrite Hm, IH; [|exact Hf'].
    cbn [rev]. now rewrite <- app_assoc.
Qed.


Lemma many_greedy_total (p : char -> bool) (k : str -> str -> option captures)
      (aft : str) :
  (forall b a, k b a <> None) ->
  forall bef, many_greedy p k 0 bef aft <> None.
Proof.
  intros Hk. induction aft as [|x t IH]; intros bef; cbn [many_greedy Nat.eqb].
  - apply Hk.
  - destruct (p x); [|apply Hk].
    cbn [pred]. destruct (many_greedy p k 0 (x :: bef) t) eqn:E; [discriminate|].
    now apply IH in E.
Qed.


Lemma search_from_complete (ic : bool) (r : re) (pre : str) :
  forall bef rest,
    mtch unicode_alnum ic r accept (rev pre ++ bef) rest [] <> None ->
    search_from unicode_alnum ic r bef (pre ++ rest) <> None.
Proof.
  induction pre as [|c pre IH]; intros bef rest H.
  - cbn [rev app] in *. destruct rest; cbn [search_from];
      destruct (mtch unicode_alnum ic r accept bef _ []); congruence.
  - cbn [app search_from].
    destruct (mtch unicode_alnum ic r accept bef (c :: pre ++ rest) []); [discriminate|].
    apply IH. cbn [rev] in H. now rewrite <- app_assoc in H.
Qed.

Lemma lit_match_exact (c : char) : lit_match false c c = true.
Proof. apply N.eqb_refl. Qed.

Lemma Forall2_exact (kw : str) :
  Forall2 (fun c x => lit_match false c x = true) kw kw.
Proof. induction kw; constructor; auto. apply lit_match_exact. Qed.


(** A line in which [https://] is followed by a code point that is not
    white space holds a URL for the flagless search. *)
Lemma bare_url_found (pre post : str) (c : char) :
  is_space c = false ->
  re_search unicode_alnum false bare_url (pre ++ https ++ c :: post) <> None.
Proof.
  intros Hc. unfold re_search.
  apply search_from_complete. unfold bare_url, url_group, nonspace1, Word.
  cbn [mtch]. rewrite mtch_Str; [|apply Forall2_exact].
  cbn [many_greedy in_class]. rewrite Hc. cbn [negb pred Nat.eqb].
  match goal with
  | |- match ?g with _ => _ end <> None => destruct g eqn:E; [discriminate|]
  end.
  exfalso. revert E. apply many_greedy_total. intros; discriminate.
Qed.

(** The flagless search finds a URL exactly in the lines in which
    [https://] is followed by a code point that is not white space. *)
Lemma bare_url_iff (line : str) :
  re_search unicode_alnum false bare_url line <> None <->
  exists pre c post, line = pre ++ https ++ c :: post /\ is_space c = false.
Proof.
  split.
  - destruct (re_search unicode_alnum false bare_url line) as [m|] eqn:E; [|congruence].
    intros _. apply bare_url_capture in E.
    destruct E as [u [_ [[h [body [-> [_ [-> [Hb Hall]]]]]] [x [y ->]]]]].
    destruct body as [|c body]; [congruence|].
    cbn [forallb] in Hall. apply andb_true_iff in Hall. destruct Hall as [Hc _].
    exists x, c, (body ++ y). split.
    + now rewrite <- !app_assoc.
    + now apply negb_true_iff in Hc.
  - intros [pre [c [post [-> Hc]]]]. now apply bare_url_found.
Qed.


(** ** Status text in a line *)

Lemma contains_ci_at (kw x s : str) :
  startswith_ci kw s = true -> contains_ci kw (x ++ s) = true.
Proof.
  intros H. induction x as [|c x IH]; cbn [app].
  - destruct s; cbn [contains_ci]; now rewrite H.
  - cbn [contains_ci]. rewrite IH. apply orb_true_r.
Qed.

Lemma startswith_ci_prefix (a b st y : str) :
  ci_eq (a ++ b) st = true -> startswith_ci a (st ++ y) = true.
Proof.
  revert st; induction a as [|c a IH]; intros st H; [reflexivity|].
  destruct st as [|x st]; [discriminate|].
  cbn [app ci_eq] in H. apply andb_true_iff in H. destruct H as [H1 H2].
  cbn [app startswith_ci]. now rewrite H1, IH.
Qed.

Lemma startswith_ci_lower (s : str) :
  startswith_ci (lit "Building") s = startswith_ci (lit "building") s /\
  startswith_ci (lit "Queued") s = startswith_ci (lit "queued") s /\
  startswith_ci (lit "Build") s = startswith_ci (lit "build") s /\
  startswith_ci (lit "Queue") s = startswith_ci (lit "queue") s.
Proof. destruct s; repeat split; reflexivity. Qed.

Lemma contains_ci_lower (s : str) :
  contains_ci (lit "Building") s = contains_ci (lit "building") s /\
  contains_ci (lit "Queued") s = contains_ci (lit "queued") s.
Proof.
  induction s as [|c s [IH1 IH2]].
  - split; reflexivity.
  - cbn [contains_ci]. rewrite IH1, IH2.
    destruct (startswith_ci_lower (c :: s)) as [-> [-> _]]. split; reflexivity.
Qed.

(** A status, whole or truncated, standing in a line shows as [build] or
    [queue] in some letter case. *)
Lemma status_text_in_line (x st y : str) :
  (is_status st || is_partial_status st)%bool = true ->
  no_status_text (x ++ st ++ y) = false.
Proof.
  intros H. unfold no_status_text.
  assert (G : startswith_ci (lit "build") (st ++ y) = true \/
              startswith_ci (lit "queue") (st ++ y) = true).
  { unfold is_status, is_partial_status in H.
    repeat (apply orb_true_iff in H; destruct H as [H|H]).
    - left. destruct (startswith_ci_lower (st ++ y)) as [_ [_ [<- _]]].
      now apply (startswith_ci_prefix (lit "Build") (lit "ing")).
    - right. destruct (startswith_ci_lower (st ++ y)) as [_ [_ [_ <-]]].
      now apply (startswith_ci_prefix (lit "Queue") (lit "d")).
    - left. destruct (startswith_ci_lower (st ++ y)) as [_ [_ [<- _]]].
      apply (startswith_ci_prefix (lit "Build") []). now rewrite app_nil_r.
    - right. destruct (startswith_ci_lower (st ++ y)) as [_ [_ [_ <-]]].
      apply (startswith_ci_prefix (lit "Queue") []). now rewrite app_nil_r. }
  destruct G as [G|G]; apply (contains_ci_at _ x) in G; rewrite G;
    [reflexivity | apply andb_false_r].
Qed.

End PatternFacts.

(** ** The first loop *)

Lemma enumerate_cons {A} (n : nat) (x : A) (xs : list A) :
  enumerate n (x :: xs) = (n, x) :: enumerate (S n) xs.
Proof. reflexivity. Qed.

Lemma enumerate_snd {A} (xs : list A) : forall n, List.map snd (enumerate n xs) = xs.
Proof.
  induction xs as [|x xs IH]; intros n; [reflexivity|].
  rewrite enumerate_cons. cbn [List.map snd]. now rewrite IH.
Qed.

Lemma enumerate_length {A} (xs : list A) (n : nat) :
  length (enumerate n xs) = length xs.
Proof.
  unfold enumerate. rewrite length_combine, length_seq. apply Nat.min_id.
Qed.

Lemma header_events_app (a b : list event) :
  header_events (a ++ b) = header_events a ++ header_events b.
Proof. apply filter_app. Qed.

Section ParserFacts.

Variable unicode_alnum : char -> bool.
Variable auto_confirm : bool.

Abbreviation rows_of := (row_records unicode_alnum).
Abbreviation loop1 := (primary_loop unicode_alnum).

Lemma parse_row_spec (row : str) (v : vars) :
  header_found (parse_row unicode_alnum row v) = header_found v /\
  start_parsing (parse_row unicode_alnum row v) = start_parsing v /\
  parse_count (parse_row unicode_alnum row v) = parse_count v /\
  deployments (parse_row unicode_alnum row v) = deployments v ++ rows_of row /\
  header_events (log (parse_row unicode_alnum row v)) = header_events (log v).
Proof.
  unfold row_records, parse_row.
  destruct (first_match unicode_alnum (enumerate 0 patterns) row) as [[idx m]|];
    cbn; rewrite ?header_events_app; cbn; rewrite ?app_nil_r; auto.
Qed.

(** Below the header every line that is not blank is a data row, until ten
    rows are parsed. *)
Lemma primary_rows (items : list (nat * str)) :
  forall v,
    header_found v = true -> start_parsing v = true ->
    let v' := loop1 items v in
    header_found v' = true /\
    deployments v' =
      deployments v ++
      flat_map rows_of
        (firstn (MAX_PARSE_ROWS - parse_count v) (data_rows (List.map snd items))) /\
    header_events (log v') = header_events (log v).
Proof.
  induction items as [|[i l] items IH]; intros v Hh Hs; cbn zeta.
  - cbn. rewrite firstn_nil, app_nil_r. auto.
  - cbn [primary_loop List.map snd data_rows filter]. unfold blank.
    destruct (truthy (strip l)) eqn:Et; cbn [negb].
    + rewrite Hh, Hs. cbn [negb andb].
      set (v1 := set_count (parse_count v + 1) (emit (LogTryRow l) v)).
      assert (Hc : parse_count v1 = parse_count v + 1) by reflexivity.
      rewrite Hc. unfold MAX_PARSE_ROWS in *.
      destruct (Nat.ltb_spec 10 (parse_count v + 1)) as [Hcap|Hcap].
      * replace (10 - parse_count v) with 0 by lia.
        cbn. rewrite !header_events_app. cbn. rewrite !app_nil_r. auto.
      * destruct (parse_row_spec l v1) as [P1 [P2 [P3 [P4 P5]]]].
        specialize (IH (parse_row unicode_alnum l v1)).
        destruct IH as [I1 [I2 I3]]; [now rewrite P1 | now rewrite P2 |].
        rewrite I1, I2, I3, P3, P4, P5, Hc.
        replace (10 - parse_count v) with (S (10 - (parse_count v + 1))) by lia.
        cbn [firstn flat_map]. subst v1. cbn.
        rewrite header_events_app. cbn. rewrite !app_nil_r, <- app_assoc. auto.
    + now apply IH.
Qed.

(** Above the header nothing happens. *)
Lemma primary_skips (lines : list str) :
  forall n v,
    header_found v = false -> start_parsing v = false ->
    forallb (fun l => negb (has_header_keyword l)) lines = true ->
    loop1 (enumerate n lines) v = v.
Proof.
  induction lines as [|l lines IH]; intros n v Hh Hs Hk; [reflexivity|].
  rewrite enumerate_cons. cbn [primary_loop forallb] in *.
  apply andb_true_iff in Hk. destruct Hk as [Hl Hk].
  apply negb_true_iff in Hl.
  rewrite has_header_keyword_strip, Hl, Hh, Hs, andb_false_r. cbn [negb].
  destruct (negb (truthy (strip l))); now apply IH.
Qed.

Lemma primary_header_line (n : nat) (hdr : str) (rest : list (nat * str)) (v : vars) :
  header_found v = false -> has_header_keyword hdr = true ->
  loop1 ((n, hdr) :: rest) v
  = loop1 rest (found_header (emit (LogHeader n hdr) v)).
Proof.
  intros Hh Hk. cbn [primary_loop].
  pose proof (has_header_keyword_not_blank _ Hk) as Hb. unfold blank in Hb.
  apply negb_false_iff in Hb.
  now rewrite Hb, has_header_keyword_strip, Hk, Hh.
Qed.

Lemma primary_split (pre : list str) (hdr : str) (below : list str) :
  forall n v,
    header_found v = false -> start_parsing v = false ->
    forallb (fun l => negb (has_header_keyword l)) pre = true ->
    has_header_keyword hdr = true ->
    loop1 (enumerate n (pre ++ hdr :: below)) v
    = loop1 (enumerate (S (n + length pre)) below)
            (found_header (emit (LogHeader (n + length pre) hdr) v)).
Proof.
  induction pre as [|l pre IH]; intros n v Hh Hs Hk Hhdr.
  - cbn [app length]. rewrite Nat.add_0_r, enumerate_cons.
    now apply primary_header_line.
  - cbn [app forallb length] in *. apply andb_true_iff in Hk. destruct Hk as [Hl Hk].
    rewrite enumerate_cons.
    assert (E : loop1 ((n, l) :: enumerate (S n) (pre ++ hdr :: below)) v
                = loop1 (enumerate (S n) (pre ++ hdr :: below)) v).
    { cbn [primary_loop]. apply negb_true_iff in Hl.
      rewrite has_header_keyword_strip, Hl, Hh, Hs, andb_false_r. cbn [negb].
      now destruct (negb (truthy (strip l))). }
    rewrite E, IH by assumption.
    now replace (S n + length pre) with (n + S (length pre)) by lia.
Qed.

(** With a header, the first loop yields the records of the first ten data
    rows below it, in order. *)
Lemma primary_with_header (pre : list str) (hdr : str) (below : list str) :
  forallb (fun l => negb (has_header_keyword l)) pre = true ->
  has_header_keyword hdr = true ->
  let v := loop1 (enumerate 0 (pre ++ hdr :: below)) init_vars in
  header_found v = true /\
  deployments v = flat_map rows_of (firstn MAX_PARSE_ROWS (data_rows below)) /\
  header_events (log v) = [LogHeader (length pre) hdr].
Proof.
  intros Hk Hhdr. cbn zeta. rewrite primary_split by auto.
  match goal with |- context [loop1 ?items ?v0] =>
    destruct (primary_rows items v0) as [H1 [H2 H3]]; [reflexivity | reflexivity |]
  end.
  rewrite H1, H2, H3, enumerate_snd. cbn [init_vars found_header emit parse_count deployments log app].
  rewrite Nat.sub_0_r. cbn. auto.
Qed.

(** Without a header keyword in any line, there is no header. *)
Lemma primary_without_header (lines : list str) :
  forallb (fun l => negb (has_header_keyword l)) lines = true ->
  loop1 (enumerate 0 lines) init_vars = init_vars.
Proof. intros H. now apply primary_skips. Qed.

Lemma first_header_split (lines : list str) :
  (forallb (fun l => negb (has_header_keyword l)) lines = true) \/
  (exists pre hdr below,
      lines = pre ++ hdr :: below /\
      forallb (fun l => negb (has_header_keyword l)) pre = true /\
      has_header_keyword hdr = true).
Proof.
  induction lines as [|l lines IH]; [now left|].
  destruct (has_header_keyword l) eqn:E.
  - right. now exists [], l, lines.
  - destruct IH as [IH|[pre [hdr [below [-> [H1 H2]]]]]].
    + left. cbn [forallb]. now rewrite E.
    + right. exists (l :: pre), hdr, below. cbn [forallb app]. rewrite E. auto.
Qed.

Lemma first_header_spec (lines : list str) :
  forall n,
    (forallb (fun l => negb (has_header_keyword l)) lines = true ->
     first_header n lines = []) /\
    (forall pre hdr below,
        lines = pre ++ hdr :: below ->
        forallb (fun l => negb (has_header_keyword l)) pre = true ->
        has_header_keyword hdr = true ->
        first_header n lines = [LogHeader (n + length pre) hdr]).
Proof.
  induction lines as [|l lines IH]; intros n; split.
  - reflexivity.
  - intros [|? ?] ? ? H; discriminate.
  - cbn [forallb first_header]. destruct (has_header_keyword l); [discriminate|]. apply IH.
  - intros [|p pre] hdr below E Hk Hh; cbn [app] in E; injection E as -> ->.
    + cbn [first_header length]. now rewrite Hh, Nat.add_0_r.
    + cbn [forallb] in Hk. apply andb_true_iff in Hk. destruct Hk as [Hp Hk].
      apply negb_true_iff in Hp. cbn [first_header length]. rewrite Hp.
      destruct (IH (S n)) as [_ IH2]. rewrite (IH2 pre hdr below); auto.
      now replace (S n + length pre) with (n + S (length pre)) by lia.
Qed.

(** The header events of the first loop: one, for the first line with a
    header keyword. *)
Lemma primary_header_events (lines : list str) :
  header_events (log (loop1 (enumerate 0 lines) init_vars)) = first_header 0 lines.
Proof.
  destruct (first_header_split lines) as [H|[pre [hdr [below [-> [H1 H2]]]]]].
  - rewrite primary_without_header by exact H.
    destruct (first_header_spec lines 0) as [-> _]; auto.
  - destruct (primary_with_header pre hdr below H1 H2) as [_ [_ ->]].
    destruct (first_header_spec (pre ++ hdr :: below) 0) as [_ E].
    now rewrite (E pre hdr below).
Qed.

Lemma first_header_In (lines : list str) :
  forall n i line,
    In (LogHeader i line) (first_header n lines) <->
    exists k, i = n + k /\ nth_error lines k = Some line /\
              has_header_keyword line = true /\
              forall j, j < k -> has_header_keyword (nth j lines []) = false.
Proof.
  induction lines as [|l lines IH]; intros n i line; cbn [first_header].
  - split; [intros [] | intros [k [_ [H _]]]; now destruct k].
  - destruct (has_header_keyword l) eqn:E.
    + split.
      * intros [H|[]]. injection H as <- <-. exists 0. rewrite Nat.add_0_r.
        repeat split; auto. intros j Hj. lia.
      * intros [k [-> [Hn [Hk Hj]]]]. destruct k as [|k].
        -- cbn in Hn. injection Hn as <-. rewrite Nat.add_0_r. now left.
        -- specialize (Hj 0 (Nat.lt_0_succ _)). cbn [nth] in Hj. congruence.
    + rewrite IH. split.
      * intros [k [-> [Hn [Hk Hj]]]]. exists (S k).
        split; [lia|]. split; [exact Hn|]. split; [exact Hk|].
        intros [|j] Hlt; cbn [nth]; [exact E | apply Hj; lia].
      * intros [k [-> [Hn [Hk Hj]]]]. destruct k as [|k].
        -- cbn in Hn. injection Hn as <-. congruence.
        -- exists k. split; [lia|]. split; [exact Hn|]. split; [exact Hk|].
           intros j Hlt. apply (Hj (S j)). lia.
Qed.

(** ** The headerless loop *)

Abbreviation near := (neighbour_found unicode_alnum).
Abbreviation search_i := (re_search unicode_alnum true).

Lemma neighbour_search_spec (lines : list str) (i : nat) (url : str)
      (js : list nat) (v : vars) :
  neighbour_search unicode_alnum lines i url js v =
  match near lines i js with
  | Some (j, st) =>
      (true, emit (LogNeighbourStatus j url st) (append (url, st) v))
  | None => (false, v)
  end.
Proof.
  induction js as [|j js IH]; [reflexivity|].
  cbn [neighbour_search neighbour_found]. destruct (Nat.eqb i j); [exact IH|].
  unfold status_at.
  destruct (re_search unicode_alnum true status_word (strip (nth j lines [])));
    [reflexivity | exact IH].
Qed.

(** The loop over the three patterns, unfolded. *)
Lemma fallback_match_spec (lines : list str) (i : nat) (line : str) (v : vars) :
  fallback_match unicode_alnum lines i line (enumerate 0 fallback_patterns) v =
  match search_i fallback_pattern1 line with
  | Some m =>
      (true, emit (LogFallbackMatch 0 (group m 1) (group m 2))
                  (append (group m 1, group m 2) v))
  | None =>
      match search_i fallback_pattern2 line with
      | Some m =>
          (true, emit (LogFallbackMatch 1 (group m 1) (group m 2))
                      (append (group m 1, group m 2) v))
      | None =>
          match search_i fallback_pattern3 line with
          | Some m =>
              match near lines i (window lines i) with
              | Some (j, st) =>
                  (true, emit (LogNeighbourStatus j (group m 1) st)
                              (append (group m 1, st)
                                      (emit (LogUrlFound (group m 1)) v)))
              | None => (false, emit (LogUrlFound (group m 1)) v)
              end
          | None => (false, v)
          end
      end
  end.
Proof.
  unfold fallback_patterns, enumerate. cbn [length seq combine fallback_match].
  destruct (search_i fallback_pattern1 line); [reflexivity|].
  destruct (search_i fallback_pattern2 line); [reflexivity|].
  destruct (search_i fallback_pattern3 line); [|reflexivity].
  change (2 <=? ngroups fallback_pattern3) with false. cbv iota.
  rewrite neighbour_search_spec. fold (window lines i).
  destruct (near lines i (window lines i)) as [[j st]|]; reflexivity.
Qed.

(** What a row of the headerless loop changes: it appends its records and
    logs no header. *)
Lemma fallback_row_spec (lines : list str) (i : nat) (line : str) (v : vars) :
  let v' := fallback_row unicode_alnum lines i line v in
  header_found v' = header_found v /\
  parse_count v' = parse_count v /\
  deployments v' =
    deployments v ++ deployments (fallback_row unicode_alnum lines i line init_vars) /\
  header_events (log v') = header_events (log v).
Proof.
  cbn zeta. unfold fallback_row.
  destruct (contains https line); [|cbn; rewrite header_events_app; cbn;
                                    rewrite !app_nil_r; auto].
  rewrite !fallback_match_spec.
  destruct (search_i fallback_pattern1 line);
    [cbn; rewrite !header_events_app; cbn; rewrite !app_nil_r; auto|].
  destruct (search_i fallback_pattern2 line);
    [cbn; rewrite !header_events_app; cbn; rewrite !app_nil_r; auto|].
  destruct (search_i fallback_pattern3 line);
    [|cbn; rewrite !header_events_app; cbn; rewrite !app_nil_r; auto].
  destruct (near lines i (window lines i)) as [[j st]|];
    cbn; rewrite !header_events_app; cbn; rewrite !app_nil_r; auto.
Qed.

(** The headerless loop never stops early: the counter it tests stays where
    it starts, and every line that is not skipped is parsed. *)
Lemma fallback_loop_spec (lines : list str) (items : list (nat * str)) :
  forall v,
    parse_count v < 10 ->
    let v' := fallback_loop unicode_alnum lines items v in
    header_found v' = header_found v /\
    deployments v' =
      deployments v ++
      flat_map (fun item => fallback_records unicode_alnum lines (fst item) (snd item))
               items /\
    header_events (log v') = header_events (log v).
Proof.
  induction items as [|[i l] items IH]; intros v Hc; cbn zeta.
  - cbn. now rewrite app_nil_r.
  - cbn [fallback_loop flat_map fst snd].
    destruct (Nat.leb_spec 10 (parse_count v)) as [Hge|_]; [lia|].
    unfold fallback_records at 1. unfold fallback_skips.
    destruct (negb (truthy (strip l)) || startswith (lit ">") (strip l)
              || startswith (lit "You can learn more") (strip l))%bool.
    + now apply IH.
    + destruct (fallback_row_spec lines i l v) as [R1 [R2 [R3 R4]]].
      destruct (IH (fallback_row unicode_alnum lines i l v)) as [I1 [I2 I3]];
        [now rewrite R2|].
      rewrite I1, I2, I3, R1, R3, R4, <- app_assoc. auto.
Qed.







(** ** The last strategy *)

Lemma bare_url_contains (l : str) (m : captures) :
  re_search unicode_alnum false bare_url l = Some m -> contains https l = true.
Proof.
  intros H. apply bare_url_capture in H.
  destruct H as [u [_ [[h [body [-> [_ [-> _]]]]] [x [y ->]]]]].
  apply contains_app. exists x, (body ++ y). now rewrite <- !app_assoc.
Qed.

Lemma aggressive_loop_on (ac : bool) (items : list (nat * str)) :
  forall v,
    let v' := aggressive_loop unicode_alnum ac items v in
    deployments v' =
      deployments v ++
      (if ac then flat_map (guess unicode_alnum) items else []) /\
    header_events (log v') = header_events (log v).
Proof.
  induction items as [|[i l] items IH]; intros v; cbn zeta.
  - cbn. destruct ac; now rewrite app_nil_r.
  - cbn [aggressive_loop flat_map guess].
    destruct (re_search unicode_alnum false bare_url l) as [m|] eqn:E.
    + rewrite (bare_url_contains _ E).
      destruct ac.
      * match goal with |- context [aggressive_loop _ _ items ?v0] =>
          destruct (IH v0) as [I1 I2]; rewrite I1, I2
        end.
        cbn. rewrite !header_events_app. cbn.
        rewrite !app_nil_r, <- app_assoc. auto.
      * match goal with |- context [aggressive_loop _ _ items ?v0] =>
          destruct (IH v0) as [I1 I2]; rewrite I1, I2
        end.
        cbn. rewrite !header_events_app. cbn.
        rewrite !app_nil_r. auto.
    + cbn [app]. destruct (contains https l); apply IH.
Qed.

Lemma aggressive_loop_spec (items : list (nat * str)) (v : vars) :
  let v' := aggressive_loop unicode_alnum auto_confirm items v in
  deployments v' =
    deployments v ++
    (if auto_confirm then flat_map (guess unicode_alnum) items else []) /\
  header_events (log v') = header_events (log v).
Proof. apply aggressive_loop_on. Qed.

(** ** The whole of [parse_deployments] *)

Abbreviation structured := (structured_parse unicode_alnum).

Lemma structured_with_header (pre : list str) (hdr : str) (below : list str) :
  forallb (fun l => negb (has_header_keyword l)) pre = true ->
  has_header_keyword hdr = true ->
  structured (pre ++ hdr :: below)
  = loop1 (enumerate 0 (pre ++ hdr :: below)) init_vars.
Proof.
  intros H1 H2. unfold structured_parse.
  destruct (primary_with_header pre hdr below H1 H2) as [-> _]. reflexivity.
Qed.

Lemma structured_headerless (lines : list str) :
  forallb (fun l => negb (has_header_keyword l)) lines = true ->
  deployments (structured lines)
  = flat_map (fun item => fallback_records unicode_alnum lines (fst item) (snd item))
             (enumerate 0 lines) /\
  header_events (log (structured lines)) = [].
Proof.
  intros H. unfold structured_parse. rewrite primary_without_header by exact H.
  cbn [header_found init_vars negb].
  match goal with |- context [fallback_loop _ _ ?items ?v0] =>
    destruct (fallback_loop_spec lines items v0) as [_ [F2 F3]]; [cbn; lia|]
  end.
  rewrite F2, F3. split; reflexivity.
Qed.

(** The records [parse_deployments] returns, by strategy. *)
Lemma parse_deployments_spec (output : str) :
  let lines := split_nl output in
  let found := deployments (structured lines) in
  parse_deployments unicode_alnum auto_confirm output =
  if (Nat.eqb (length found) 0 && (3 <=? length (url_candidates lines)))%bool
  then if auto_confirm
       then flat_map (guess unicode_alnum)
                     (enumerate 0 (firstn 3 (List.map strip (url_candidates lines))))
       else []
  else found.
Proof.
  cbn zeta. unfold parse_deployments, parse_run, aggressive_parse.
  fold structured.
  destruct (Nat.eqb (length (deployments (structured (split_nl output)))) 0
            && (3 <=? length (url_candidates (split_nl output))))%bool eqn:E;
    [|reflexivity].
  apply andb_true_iff in E. destruct E as [E _]. apply Nat.eqb_eq in E.
  match goal with |- context [aggressive_loop _ _ ?items ?v0] =>
    destruct (aggressive_loop_spec items v0) as [A1 _]
  end.
  match goal with |- deployments (emit _ (if ?c then _ else _)) = _ =>
    destruct c
  end; cbn [deployments emit]; rewrite A1; cbn [deployments emit];
    destruct (deployments (structured (split_nl output))); try discriminate;
    reflexivity.
Qed.

Lemma parse_log_header_events (output : str) :
  header_events (parse_log unicode_alnum auto_confirm output)
  = first_header 0 (split_nl output).
Proof.
  unfold parse_log, parse_run. fold structured.
  set (lines := split_nl output).
  assert (HS : header_events (log (structured lines)) = first_header 0 lines).
  { destruct (first_header_split lines) as [H|[pre [hdr [below [E [H1 H2]]]]]].
    - destruct (structured_headerless lines H) as [_ ->].
      destruct (first_header_spec lines 0) as [-> _]; auto.
    - rewrite E, structured_with_header by assumption.
      apply primary_header_events. }
  cbn [log emit]. rewrite header_events_app.
  cbn [header_events filter is_header_event]. rewrite app_nil_r.
  unfold aggressive_parse.
  destruct (Nat.eqb (length (deployments (structured lines))) 0
            && (3 <=? length (url_candidates lines)))%bool; [|exact HS].
  match goal with |- context [aggressive_loop _ _ ?items ?v0] =>
    destruct (aggressive_loop_spec items v0) as [_ A2];
    set (v1 := aggressive_loop unicode_alnum auto_confirm items v0) in *
  end.
  assert (A : header_events (log v1) = first_header 0 lines).
  { rewrite A2. cbn [log emit]. rewrite header_events_app.
    cbn [header_events filter is_header_event]. now rewrite app_nil_r. }
  destruct (0 <? length (deployments v1)); [|exact A].
  cbn [log emit]. rewrite header_events_app, A.
  cbn [header_events filter is_header_event]. now rewrite app_nil_r.
Qed.

(** ** The status of every record *)

Lemma first_match_In (pats : list (nat * re)) (line : str) (idx : nat)
      (m : captures) :
  first_match unicode_alnum pats line = Some (idx, m) ->
  exists p, In (idx, p) pats /\ search_i p line = Some m.
Proof.
  induction pats as [|[k p] pats IH]; cbn [first_match]; [discriminate|].
  destruct (search_i p line) as [m'|] eqn:E.
  - intros H. injection H as <- <-. exists p. split; [now left | exact E].
  - intros H. apply IH in H. destruct H as [q [Hq Hs]]. exists q. split; [now right | exact Hs].
Qed.

Lemma enumerate_In {A} (xs : list A) :
  forall n i x, In (i, x) (enumerate n xs) -> In x xs.
Proof.
  induction xs as [|y xs IH]; intros n i x; [intros []|].
  rewrite enumerate_cons. intros [H|H].
  - injection H as _ <-. now left.
  - right. now apply (IH (S n) i).
Qed.

Lemma row_records_status (row : str) (d : deployment) :
  In d (rows_of row) ->
  is_url true (fst d) /\ status_ok (snd d) = true /\
  no_status_text row = false /\ contains (snd d) row = true.
Proof.
  unfold row_records, parse_row.
  destruct (first_match unicode_alnum (enumerate 0 patterns) row) as [[idx m]|] eqn:E;
    cbn; [|intros []].
  intros [<-|[]]. apply first_match_In in E. destruct E as [p [Hp Hs]].
  apply enumerate_In in Hp. apply patterns_capture in Hs; [|exact Hp].
  destruct Hs as [u [st [-> [Hu [Hst [x [y ->]]]]]]]. cbn [fst snd group get_group Nat.eqb].
  repeat split; auto; [now apply status_text_in_line|].
  apply contains_app. now exists x, y.
Qed.


Lemma split_nl_head (t : str) :
  forall l0 ls, split_nl t = l0 :: ls -> exists b, t = l0 ++ b.
Proof.
  induction t as [|c t IH]; intros l0 ls; cbn [split_nl].
  - intros H. injection H as <- <-. now exists [].
  - destruct (N.eqb c 10).
    + intros H. injection H as <- _. now exists (c :: t).
    + destruct (split_nl t) as [|l1 ls1] eqn:E.
      * intros H. injection H as <- _. now exists t.
      * intros H. injection H as <- _.
        destruct (IH l1 ls1 eq_refl) as [b ->]. now exists b.
Qed.

(** Every line is a piece of the text. *)
Lemma split_nl_In (s l : str) :
  In l (split_nl s) -> exists a b, s = a ++ l ++ b.
Proof.
  revert l. induction s as [|c s IH]; intros l; cbn [split_nl].
  - intros [<-|[]]. now exists [], [].
  - destruct (N.eqb c 10).
    + intros [<-|H]; [now exists [], (c :: s)|].
      apply IH in H. destruct H as [a [b ->]]. now exists (c :: a), b.
    + destruct (split_nl s) as [|l0 ls] eqn:E.
      * intros [<-|[]]. now exists [], s.
      * intros [<-|H].
        -- destruct (split_nl_head s E) as [b ->]. now exists [], b.
        -- destruct (IH l (or_intror H)) as [a [b ->]]. now exists (c :: a), b.
Qed.

Lemma contains_piece (st l a b : str) :
  contains st l = true -> contains st (a ++ l ++ b) = true.
Proof.
  rewrite !contains_app. intros [x [y ->]].
  exists (a ++ x), (y ++ b). now rewrite <- !app_assoc.
Qed.




End ParserFacts.

(** ** The cleanup loop *)

Section OrchestratorFacts.

Variable unicode_alnum : char -> bool.
Variable auto_confirm : bool.
Variable World : Type.
Variable run_list : str -> nat -> nat -> World -> option completed * World.
Variable run_delete : str -> World -> option completed * World.

Abbreviation cleanup_of :=
  (cleanup_project_deployments unicode_alnum auto_confirm run_list run_delete).
Abbreviation lister := (list_deployments run_list).

(** Past the first record, every record goes to the deleter once, in order,
    and counts as attempted whatever the deleter answers. *)
Lemma delete_loop_spec (total : nat) (items : list (nat * deployment)) :
  forall c,
    (forall i d, In (i, d) items -> i <> 1) ->
    let c' := delete_loop run_delete total items c in
    retained (actions c') = retained (actions c) /\
    deleted (actions c') = deleted (actions c) ++ List.map snd items /\
    attempted c' = attempted c + length items /\
    success_count c <= success_count c' /\
    success_count c' <= success_count c + length items.
Proof.
  induction items as [|[i [u s]] items IH]; intros c Hi; cbn zeta.
  - cbn. rewrite app_nil_r. repeat split; try reflexivity; lia.
  - cbn [delete_loop]. destruct (Nat.eqb_spec i 1) as [->|Hne].
    + exfalso. apply (Hi 1 (u, s)); [now left | reflexivity].
    + destruct (delete_deployment run_delete u (world c)) as [ok w] eqn:Ed.
      match goal with |- context [delete_loop _ _ items ?c0] =>
        pose proof (IH c0) as IHc;
        set (c1 := delete_loop run_delete total items c0) in *
      end.
      destruct IHc as [I1 [I2 [I3 [I4 I5]]]];
        [intros k d Hk; apply (Hi k d); now right|].
      cbn [actions attempted success_count] in I1, I2, I3, I4, I5.
      rewrite I1, I2, I3.
      unfold retained, deleted. rewrite !flat_map_app. cbn [flat_map List.map snd length].
      assert (E1 : flat_map (fun a : action => match a with Keep u0 s0 => [(u0, s0)] | _ => [] end)
                            (if i <? total then [Sleep] else []) = [])
        by now destruct (i <? total).
      assert (E2 : flat_map (fun a : action => match a with Delete u0 s0 _ => [(u0, s0)] | _ => [] end)
                            (if i <? total then [Sleep] else []) = [])
        by now destruct (i <? total).
      rewrite E1, E2, !app_nil_r, <- app_assoc. cbn [app].
      destruct ok; repeat split; try reflexivity; lia.
Qed.

Lemma enumerate_from {A} (xs : list A) :
  forall n i x, In (i, x) (enumerate n xs) -> n <= i.
Proof.
  induction xs as [|y xs IH]; intros n i x; [intros []|].
  rewrite enumerate_cons. intros [H|H].
  - injection H as <- _. lia.
  - apply IH in H. lia.
Qed.

(** The loop over [enumerate(deployments, 1)]: the first record is kept, the
    others are deleted in order. *)
Lemma retention_spec (d : deployment) (ds : list deployment) (w : World) :
  let c := delete_loop run_delete (length (d :: ds)) (enumerate 1 (d :: ds))
             {| success_count := 0; attempted := 0; world := w; actions := [] |} in
  retained (actions c) = [d] /\ deleted (actions c) = ds /\
  attempted c = length ds /\ success_count c <= attempted c.
Proof.
  cbn zeta. rewrite enumerate_cons. destruct d as [u s].
  cbn [delete_loop Nat.eqb].
  match goal with |- context [delete_loop _ ?t ?items ?c0] =>
    pose proof (delete_loop_spec t items c0) as L;
    set (c1 := delete_loop run_delete t items c0) in *
  end.
  destruct L as [I1 [I2 [I3 [I4 I5]]]].
  - intros i x Hin. apply enumerate_from in Hin. lia.
  - cbn [actions attempted success_count] in I1, I2, I3, I4, I5.
    rewrite enumerate_snd in I2. rewrite enumerate_length in I3, I5.
    rewrite I1, I2, I3. cbn. repeat split; try reflexivity; lia.
Qed.

(** What [cleanup_project_deployments] does with the text of the lister. *)
Lemma cleanup_with_output (project : str) (w w' : World) (output : str) :
  lister project w = (Some output, w') -> output <> [] ->
  let ds := parse_deployments unicode_alnum auto_confirm output in
  let c := cleanup_of project w in
  retained (actions c) = firstn 1 ds /\ deleted (actions c) = skipn 1 ds /\
  attempted c = length ds - 1 /\ success_count c <= attempted c.
Proof.
  intros Hl Hne. cbn zeta. unfold cleanup_project_deployments. rewrite Hl.
  destruct output as [|c0 output]; [congruence|].
  destruct (parse_deployments unicode_alnum auto_confirm (c0 :: output)) as [|d ds] eqn:Ep.
  - cbn. repeat split; try reflexivity; lia.
  - pose proof (retention_spec d ds w') as R. cbn zeta in R.
    match type of R with context [retained (actions ?c)] => set (c1 := c) in * end.
    destruct R as [R1 [R2 [R3 R4]]].
    rewrite R1, R2. cbn [firstn skipn length]. repeat split; try reflexivity; lia.
Qed.

(** Without text from the lister nothing is parsed and nothing is deleted. *)
Lemma cleanup_without_output (project : str) (w w' : World) :
  lister project w = (None, w') ->
  cleanup_of project w
  = {| success_count := 0; attempted := 0; world := w';
       actions := [ListFailed project] |}.
Proof. intros Hl. unfold cleanup_project_deployments. now rewrite Hl. Qed.

Lemma run_methods_no_output (project : str) (cmd : nat) (methods : list nat) :
  (forall method w, no_output (fst (run_list project cmd method w)) = true) ->
  forall w, no_output (fst (run_methods run_list project cmd methods w)) = true.
Proof.
  intros H. induction methods as [|m methods IH]; intros w; [reflexivity|].
  cbn [run_methods]. specialize (H m w).
  destruct (run_list project cmd m w) as [[r|] w1]; [exact H | apply IH].
Qed.

(** The lister yields nothing when every variant of the call raises, times
    out or prints only white space. *)
Lemma list_deployments_no_output (project : str) :
  (forall cmd method w, no_output (fst (run_list project cmd method w)) = true) ->
  forall w, fst (lister project w) = None.
Proof.
  intros H. unfold list_deployments.
  generalize [0; 1; 2] as cmds. induction cmds as [|cmd cmds IH]; intros w; [reflexivity|].
  cbn [try_commands].
  pose proof (run_methods_no_output project cmd [0; 1; 2] (H cmd) w) as Hm.
  destruct (run_methods run_list project cmd [0; 1; 2] w) as [[r|] w1]; [|apply IH].
  cbn [fst no_output] in Hm. apply negb_true_iff in Hm. rewrite Hm. apply IH.
Qed.

End OrchestratorFacts.

(** * The claims *)

Section CleanupClaims.

Variable unicode_alnum : char -> bool.
Variable auto_confirm : bool.
Variable World : Type.
Variable run_list : str -> nat -> nat -> World -> option completed * World.
Variable run_delete : str -> World -> option completed * World.

Abbreviation cleanup_of :=
  (cleanup_project_deployments unicode_alnum auto_confirm run_list run_delete).
Abbreviation lister := (list_deployments run_list).
Abbreviation parse := (parse_deployments unicode_alnum auto_confirm).

(** C3. Retention: of the records parsed for a project, the first is kept
    and all the others are handed to the deleter in their order, so the kept
    record followed by the deleted ones is the parse result; one record is
    kept and N - 1 are deleted when there are N >= 1, none and none when the
    parse result is empty.  The loop does so on any list of records that is
    not empty. *)
Theorem C3_retention_policy (project : str) (w w' : World) (output : str) :
  lister project w = (Some output, w') -> output <> [] ->
  let ds := parse output in
  let c := cleanup_of project w in
  retained (actions c) = firstn 1 ds /\
  deleted (actions c) = skipn 1 ds /\
  retained (actions c) ++ deleted (actions c) = ds /\
  length (retained (actions c)) = (if Nat.eqb (length ds) 0 then 0 else 1) /\
  length (deleted (actions c)) = length ds - 1 /\
  (forall d rest w0,
      let c0 := delete_loop run_delete (length (d :: rest)) (enumerate 1 (d :: rest))
                  {| success_count := 0; attempted := 0; world := w0; actions := [] |} in
      retained (actions c0) = [d] /\ deleted (actions c0) = rest).
Proof.
  intros Hl Hne. cbn zeta.
  destruct (cleanup_with_output unicode_alnum auto_confirm run_list run_delete
              project w Hl Hne) as [R1 [R2 _]].
  rewrite R1, R2. repeat split.
  - apply firstn_skipn.
  - destruct (parse output); reflexivity.
  - destruct (parse output); cbn; lia.
  - now destruct (retention_spec run_delete d rest w0) as [R _].
  - now destruct (retention_spec run_delete d rest w0) as [_ [R _]].
Qed.

(** C8. When the lister yields nothing for a project, its outcome is no
    success out of no attempt, the deleter is not called, and the loop over
    the projects goes on with the next project. *)
Theorem C8_lister_failure (project : str) (w w' : World) (projects : list str)
        (totals : cleanup World) :
  lister project w = (None, w') ->
  let c := cleanup_of project w in
  success_count c = 0 /\ attempted c = 0 /\
  deleted (actions c) = [] /\ existsb is_delete (actions c) = false /\
  (world totals = w ->
   process_projects unicode_alnum auto_confirm run_list run_delete
     (project :: projects) totals
   = process_projects unicode_alnum auto_confirm run_list run_delete projects
       {| success_count := success_count totals; attempted := attempted totals;
          world := w'; actions := actions totals ++ [ListFailed project] |}).
Proof.
  intros Hl. cbn zeta. rewrite (cleanup_without_output _ _ _ _ _ _ Hl).
  cbn [success_count attempted actions deleted flat_map existsb is_delete orb].
  repeat split. intros Hw. cbn [process_projects]. rewrite Hw.
  rewrite (cleanup_without_output _ _ _ _ _ _ Hl).
  cbn [success_count attempted actions world]. now rewrite !Nat.add_0_r.
Qed.

(** C9. The outcome of a project: never more successes than attempts; with
    N >= 1 records parsed, N - 1 attempts, whatever the deleter answers; with
    no record parsed, no success and no attempt. *)
Theorem C9_project_outcome (project : str) (w : World) :
  let c := cleanup_of project w in
  success_count c <= attempted c /\
  forall w' output,
    lister project w = (Some output, w') -> output <> [] ->
    (1 <= length (parse output) -> attempted c = length (parse output) - 1) /\
    (parse output = [] -> attempted c = 0 /\ success_count c = 0).
Proof.
  cbn zeta. split.
  - destruct (lister project w) as [[[|c0 output]|] w'] eqn:Hl.
    + unfold cleanup_project_deployments. rewrite Hl. cbn. lia.
    + assert (Hne : c0 :: output <> []) by discriminate.
      now destruct (cleanup_with_output unicode_alnum auto_confirm run_list
                      run_delete project w Hl Hne) as [_ [_ [_ R]]].
    + rewrite (cleanup_without_output _ _ _ _ _ _ Hl). cbn. lia.
  - intros w' output Hl Hne.
    destruct (cleanup_with_output unicode_alnum auto_confirm run_list
                run_delete project w Hl Hne) as [_ [_ [R3 R4]]].
    split; [intros _; exact R3|].
    intros E. rewrite E in R3. cbn in R3. lia.
Qed.

End CleanupClaims.

(** ** More on lines and rows *)


Lemma has_url_strip (l : str) : has_url l -> has_url (strip l).
Proof.
  intros [pre [c [post [-> Hc]]]].
  assert (Hin : contains (https ++ [c]) (strip (pre ++ https ++ c :: post)) = true).
  { rewrite contains_strip.
    - apply contains_app. exists pre, post. now rewrite <- app_assoc.
    - eexists; eexists. split; reflexivity.
    - rewrite rev_app_distr. eexists; eexists. split; [reflexivity | exact Hc]. }
  apply contains_app in Hin. destruct Hin as [a [b E]].
  exists a, c, b. split; [|exact Hc]. rewrite E. now rewrite <- app_assoc.
Qed.


Section RowFacts.

Variable unicode_alnum : char -> bool.

Abbreviation rows_of := (row_records unicode_alnum).
Abbreviation search_i := (re_search unicode_alnum true).

(** A line with a URL gives the last strategy one record, for a URL of that
    line. *)
Lemma guess_has_url (i : nat) (l : str) :
  has_url l ->
  exists u,
    guess unicode_alnum (i, strip l)
    = [(u, if Nat.eqb i 0 then lit "Building" else lit "Queued")] /\
    is_url false u /\ contains u l = true.
Proof.
  intros H. apply has_url_strip in H.
  pose proof (proj2 (bare_url_iff unicode_alnum (strip l)) H) as Hs.
  unfold guess.
  destruct (re_search unicode_alnum false bare_url (strip l)) as [m|] eqn:E; [|congruence].
  apply bare_url_capture in E. destruct E as [u [-> [Hu [x [y E]]]]].
  exists u. repeat split; auto.
  destruct (strip_decompose l) as [sp [sp' [El _]]].
  apply contains_app. exists (sp ++ x), (y ++ sp').
  rewrite El at 1. rewrite E. now rewrite <- !app_assoc.
Qed.

(** No status word in the line: the two status patterns of the headerless
    loop fail. *)
Lemma no_status_word_fallback (line : str) :
  no_status_word line = true ->
  search_i fallback_pattern1 line = None /\ search_i fallback_pattern2 line = None.
Proof.
  intros Hn.
  assert (G : forall idx p m, idx < 2 -> nth_error fallback_patterns idx = Some p ->
                              search_i p line = Some m -> False).
  { intros idx p m Hidx Hp Hs.
    apply (@fallback_status_capture unicode_alnum idx p line m Hidx Hp) in Hs.
    destruct Hs as [u [st [_ [_ [Hst [x [y ->]]]]]]].
    unfold no_status_word in Hn. unfold is_status in Hst.
    apply andb_true_iff in Hn. destruct Hn as [N1 N2].
    apply negb_true_iff in N1, N2.
    apply orb_true_iff in Hst. destruct Hst as [Hst|Hst].
    - rewrite (contains_ci_at _ x (st ++ y)) in N1; [discriminate|].
      apply (startswith_ci_prefix (lit "Building") []). now rewrite app_nil_r.
    - rewrite (contains_ci_at _ x (st ++ y)) in N2; [discriminate|].
      apply (startswith_ci_prefix (lit "Queued") []). now rewrite app_nil_r. }
  split.
  - destruct (search_i fallback_pattern1 line) as [m|] eqn:E; [|reflexivity].
    exfalso. exact (G 0 fallback_pattern1 m (Nat.lt_0_succ _) eq_refl E).
  - destruct (search_i fallback_pattern2 line) as [m|] eqn:E; [|reflexivity].
    exfalso. exact (G 1 fallback_pattern2 m (Nat.lt_succ_diag_r _) eq_refl E).
Qed.

(** A row that matches pattern 1 or 2 yields one record, with a whole
    status. *)
Lemma transient_row_records (row : str) :
  is_transient_row unicode_alnum row = true ->
  exists u st, rows_of row = [(u, st)] /\ is_url true u /\ is_status st = true /\
               contains u row = true /\ contains st row = true.
Proof.
  unfold is_transient_row, row_records, parse_row, patterns, enumerate.
  cbn [length seq combine first_match].
  destruct (search_i pattern1 row) as [m|] eqn:E1.
  - intros _. apply pattern12_capture in E1; [|now left].
    destruct E1 as [u [st [-> [Hu Hst]]]]. now exists u, st.
  - destruct (search_i pattern2 row) as [m|] eqn:E2; [|discriminate].
    intros _. apply pattern12_capture in E2; [|now right].
    destruct E2 as [u [st [-> [Hu Hst]]]]. now exists u, st.
Qed.

(** A row without status text yields nothing and is not transient. *)
Lemma quiet_row_records (row : str) :
  no_status_text row = true ->
  rows_of row = [] /\ is_transient_row unicode_alnum row = false.
Proof.
  intros Hq.
  assert (E : rows_of row = []).
  { destruct (rows_of row) as [|d ds] eqn:E; [reflexivity|].
    assert (Hin : In d (rows_of row)) by (rewrite E; now left).
    apply row_records_status in Hin. destruct Hin as [_ [_ [Hin _]]]. congruence. }
  split; [exact E|].
  destruct (is_transient_row unicode_alnum row) eqn:Et; [|reflexivity].
  apply transient_row_records in Et. destruct Et as [u [st [Er _]]]. congruence.
Qed.

Lemma rows_count (rows : list str) :
  Forall (fun row => is_transient_row unicode_alnum row = true \/
                     no_status_text row = true) rows ->
  length (flat_map rows_of rows)
  = length (filter (is_transient_row unicode_alnum) rows).
Proof.
  induction 1 as [|row rows Hrow _ IH]; [reflexivity|].
  cbn [flat_map filter]. rewrite length_app, IH.
  destruct Hrow as [Ht|Hq].
  - rewrite Ht. apply transient_row_records in Ht.
    destruct Ht as [u [st [-> _]]]. reflexivity.
  - apply quiet_row_records in Hq. destruct Hq as [-> ->]. reflexivity.
Qed.

End RowFacts.

Section ParserClaims.

Variable unicode_alnum : char -> bool.
Variable auto_confirm : bool.

Abbreviation parse := (parse_deployments unicode_alnum auto_confirm).
Abbreviation rows_of := (row_records unicode_alnum).
Abbreviation records_at := (fallback_records unicode_alnum).
Abbreviation loop1 := (primary_loop unicode_alnum).

(** C6. The first loop on a well-formed table: below the first line with a
    header keyword, with at most ten data rows, each of which matches
    pattern 1 or 2 or carries no status text at all (a row such as Ready),
    the records are those of the rows that match pattern 1 or 2, one per
    row, in the order of the rows, each with the URL and the Building or
    Queued status of its row; the other rows yield nothing.  The result of
    [parse_deployments] is the same list when it is not empty or the
    opt-in switch is off. *)
Theorem C6_primary_parser (output : str) (pre : list str) (hdr : str)
        (below : list str) :
  split_nl output = pre ++ hdr :: below ->
  forallb (fun l => negb (has_header_keyword l)) pre = true ->
  has_header_keyword hdr = true ->
  length (data_rows below) <= 10 ->
  Forall (fun row => is_transient_row unicode_alnum row = true \/
                     no_status_text row = true) (data_rows below) ->
  let v := loop1 (enumerate 0 (pre ++ hdr :: below)) init_vars in
  deployments v = flat_map rows_of (data_rows below) /\
  length (deployments v)
  = length (filter (is_transient_row unicode_alnum) (data_rows below)) /\
  (forall row, is_transient_row unicode_alnum row = true ->
     exists u st, rows_of row = [(u, st)] /\ is_url true u /\ is_status st = true /\
                  contains u row = true /\ contains st row = true) /\
  (forall row, no_status_text row = true -> rows_of row = []) /\
  (auto_confirm = false \/ deployments v <> [] -> parse output = deployments v).
Proof.
  intros Hsplit Hpre Hhdr Hlen Hrows. cbn zeta.
  destruct (primary_with_header unicode_alnum pre hdr below Hpre Hhdr) as [Hf [Hd _]].
  cbn zeta in Hf, Hd. unfold MAX_PARSE_ROWS in Hd.
  rewrite firstn_all2 in Hd by exact Hlen.
  split; [exact Hd|]. split; [rewrite Hd; now apply rows_count|].
  split; [apply transient_row_records|].
  split; [intros row Hq; now apply quiet_row_records|].
  intros Hgate. rewrite parse_deployments_spec. cbn zeta.
  rewrite Hsplit, structured_with_header by assumption.
  destruct (Nat.eqb_spec (length (deployments (loop1 (enumerate 0 (pre ++ hdr :: below)) init_vars))) 0)
    as [E|E]; [|reflexivity].
  apply length_zero_iff_nil in E. rewrite E in *.
  destruct Hgate as [-> | Hne]; [|congruence].
  now destruct (3 <=? length (url_candidates (pre ++ hdr :: below))).
Qed.

(** C7. The header is the first line that holds, in this letter case, one
    of Age, Deployment, Status, Environment and Duration: a line is logged
    as the header exactly when it holds a keyword and no line above it does.
    Every line below the header that is not blank is a data row, a line with
    the keywords included. *)
Theorem C7_header_classification (output : str) :
  let lines := split_nl output in
  (forall i line,
      In (LogHeader i line) (parse_log unicode_alnum auto_confirm output) <->
      nth_error lines i = Some line /\ has_header_keyword line = true /\
      forall j, j < i -> has_header_keyword (nth j lines []) = false) /\
  (forall pre hdr below,
      lines = pre ++ hdr :: below ->
      forallb (fun l => negb (has_header_keyword l)) pre = true ->
      has_header_keyword hdr = true ->
      deployments (loop1 (enumerate 0 lines) init_vars)
      = flat_map rows_of (firstn MAX_PARSE_ROWS (data_rows below))).
Proof.
  cbn zeta. split.
  - intros i line.
    assert (E : In (LogHeader i line) (parse_log unicode_alnum auto_confirm output) <->
                In (LogHeader i line)
                   (header_events (parse_log unicode_alnum auto_confirm output))).
    { unfold header_events. rewrite filter_In. cbn. tauto. }
    rewrite E, parse_log_header_events, first_header_In. split.
    + intros [k [-> H]]. exact H.
    + intros H. now exists i.
  - intros pre hdr below -> Hpre Hhdr.
    now destruct (primary_with_header unicode_alnum pre hdr below Hpre Hhdr) as [_ [Hd _]].
Qed.

(** C4 as the code has it.  With nothing found by the two loops and at
    least three lines that hold [https://] and are not blank: without the
    opt-in switch the result is empty; with it, the result has one record
    for each of the first three such lines in which [https://] is followed
    by a code point that is not white space, in the order of the lines, with
    Building for the first of the three lines and Queued for the other two.
    So three records with Building, Queued, Queued when each of the three
    lines holds such a URL. *)
Theorem C4_aggressive_gate (output : str) :
  let lines := split_nl output in
  deployments (structured_parse unicode_alnum lines) = [] ->
  3 <= length (url_candidates lines) ->
  parse_deployments unicode_alnum false output = [] /\
  parse_deployments unicode_alnum true output
  = flat_map (guess unicode_alnum)
             (enumerate 0 (firstn 3 (List.map strip (url_candidates lines)))) /\
  (forall l1 l2 l3 more,
      url_candidates lines = l1 :: l2 :: l3 :: more ->
      has_url l1 -> has_url l2 -> has_url l3 ->
      exists u1 u2 u3,
        parse_deployments unicode_alnum true output
        = [(u1, lit "Building"); (u2, lit "Queued"); (u3, lit "Queued")] /\
        (is_url false u1 /\ contains u1 l1 = true) /\
        (is_url false u2 /\ contains u2 l2 = true) /\
        (is_url false u3 /\ contains u3 l3 = true)).
Proof.
  cbn zeta. intros Hfound Hthree.
  assert (Hgate : forall ac,
             parse_deployments unicode_alnum ac output
             = if ac
               then flat_map (guess unicode_alnum)
                      (enumerate 0 (firstn 3 (List.map strip (url_candidates (split_nl output)))))
               else []).
  { intros ac. rewrite parse_deployments_spec. cbn zeta. rewrite Hfound.
    apply Nat.leb_le in Hthree. now rewrite Hthree. }
  split; [apply (Hgate false)|]. split; [apply (Hgate true)|].
  intros l1 l2 l3 more E H1 H2 H3. rewrite (Hgate true), E.
  cbn [List.map firstn]. rewrite !enumerate_cons. cbn [flat_map enumerate combine seq length].
  destruct (guess_has_url unicode_alnum 0 H1) as [u1 [-> G1]].
  destruct (guess_has_url unicode_alnum 1 H2) as [u2 [-> G2]].
  destruct (guess_has_url unicode_alnum 2 H3) as [u3 [-> G3]].
  exists u1, u2, u3. cbn. auto.
Qed.


End ParserClaims.

Section FallbackClaims.

Variable unicode_alnum : char -> bool.
Variable auto_confirm : bool.

Abbreviation parse := (parse_deployments unicode_alnum auto_confirm).
Abbreviation records_at := (fallback_records unicode_alnum).
Abbreviation status_near := (status_at unicode_alnum).
Abbreviation search_i := (re_search unicode_alnum true).




(** C10. The bare-URL pattern is anchored at the start of the line as it
    stands: in a line with [https://] and no status word, whatever record
    the row yields and whatever URL it looks up a status for stands at the
    start of the line; and when the line does not start with [https://] in
    any letter case, white space before it included, the row yields nothing
    and no neighbour is searched, whatever the lines around it hold. *)
Theorem C10_bare_url_anchored (lines : list str) (i : nat) (line : str) (v : vars) :
  contains https line = true -> no_status_word line = true ->
  (forall d, In d (deployments (fallback_row unicode_alnum lines i line init_vars)) ->
             exists rest, line = fst d ++ rest) /\
  (forall u, In (LogUrlFound u) (log (fallback_row unicode_alnum lines i line init_vars)) ->
             exists rest, line = u ++ rest) /\
  (startswith_ci https line = false ->
   fallback_row unicode_alnum lines i line v
   = emit (LogFallbackNoMatch line) (emit (LogFallbackRow i line) v)).
Proof.
  intros Hc Hns. unfold fallback_row. rewrite Hc, !fallback_match_spec.
  destruct (no_status_word_fallback unicode_alnum _ Hns) as [-> ->].
  destruct (search_i fallback_pattern3 line) as [m|] eqn:E.
  - apply fallback_url_capture in E. destruct E as [u [rest [-> [Hu ->]]]].
    change (group [(1, u)] 1) with u.
    split; [|split].
    + destruct (neighbour_found unicode_alnum lines i (window lines i)) as [[j st]|];
        cbn; [intros d [<-|[]]; now exists rest | intros d []].
    + destruct (neighbour_found unicode_alnum lines i (window lines i)) as [[j st]|];
        cbn; intros u' H;
        repeat (destruct H as [H|H]; [try discriminate; injection H as <-; now exists rest|]);
        destruct H.
    + intros Hsw. exfalso.
      destruct Hu as [h [body [-> [_ [Hh _]]]]].
      rewrite <- app_assoc in Hsw.
      rewrite (startswith_ci_prefix https [] h (body ++ rest)) in Hsw; [discriminate|].
      now rewrite app_nil_r.
  - split; [|split].
    + cbn. intros d [].
    + cbn. intros u H. repeat (destruct H as [H|H]; [discriminate|]). destruct H.
    + reflexivity.
Qed.

End FallbackClaims.

(** * The claims on the example runs *)

(** C1. The headerless loop tests its counter against 10 at every line and
    never counts: on eleven lines without a header, each with a URL and a
    status, it parses the eleven lines, logs no stop and returns eleven
    records. *)
Theorem C1_fallback_cap_missing :
  length (split_nl eleven_rows) = 11 /\
  header_found (primary_loop no_unicode_alnum (enumerate 0 (split_nl eleven_rows)) init_vars)
  = false /\
  length (filter is_fallback_row_event (parse_log no_unicode_alnum false eleven_rows)) = 11 /\
  existsb is_fallback_cap_event (parse_log no_unicode_alnum false eleven_rows) = false /\
  length (parse_deployments no_unicode_alnum false eleven_rows) = 11 /\
  nth 10 (parse_deployments no_unicode_alnum false eleven_rows) ([], [])
  = (lit "https://d10.vercel.app", lit "Building").
Proof. vm_compute. repeat split; reflexivity. Qed.



Lemma C3_witness :
  let c := cleanup_project_deployments no_unicode_alnum false
             (lister_printing demo_output) deleter_ok demo tt in
  retained (actions c) = [(lit "https://demo-a.vercel.app", lit "Building")] /\
  deleted (actions c) = [(lit "https://demo-b.vercel.app", lit "Queued")].
Proof.
  destruct (@C3_retention_policy no_unicode_alnum false unit
              (lister_printing demo_output) deleter_ok demo tt tt demo_output)
    as [R1 [R2 _]].
  - reflexivity.
  - discriminate.
  - cbn zeta. rewrite R1, R2. vm_compute. split; reflexivity.
Defined.

(** C4 does not hold as stated: four lines hold [https://], three of them a
    whole URL, nothing is found by the two loops, the switch is on, and the
    result has two records, both Queued. *)
Lemma C4_counterexample :
  header_found (primary_loop no_unicode_alnum (enumerate 0 (split_nl four_url_lines)) init_vars)
  = false /\
  deployments (structured_parse no_unicode_alnum (split_nl four_url_lines)) = [] /\
  length (url_candidates (split_nl four_url_lines)) = 4 /\
  parse_deployments no_unicode_alnum true four_url_lines
  = [ (lit "https://a.vercel.app", lit "Queued");
      (lit "https://b.vercel.app", lit "Queued") ].
Proof. vm_compute. repeat split; reflexivity. Qed.

Lemma C4_witness :
  parse_deployments no_unicode_alnum false four_urls = [] /\
  exists u1 u2 u3,
    parse_deployments no_unicode_alnum true four_urls
    = [(u1, lit "Building"); (u2, lit "Queued"); (u3, lit "Queued")] /\
    (is_url false u1 /\ contains u1 (lit "https://a.vercel.app") = true) /\
    (is_url false u2 /\ contains u2 (lit "https://b.vercel.app") = true) /\
    (is_url false u3 /\ contains u3 (lit "https://c.vercel.app") = true).
Proof.
  destruct (@C4_aggressive_gate no_unicode_alnum four_urls) as [G1 [_ G3]].
  - reflexivity.
  - vm_compute. lia.
  - split; [exact G1|].
    apply (G3 _ _ _ [lit "https://d.vercel.app"] eq_refl).
    + exists [], 97%N, (lit ".vercel.app"). split; reflexivity.
    + exists [], 98%N, (lit ".vercel.app"). split; reflexivity.
    + exists [], 99%N, (lit ".vercel.app"). split; reflexivity.
Defined.


Lemma C6_witness :
  parse_deployments no_unicode_alnum true demo_output
  = [ (lit "https://demo-a.vercel.app", lit "Building");
      (lit "https://demo-b.vercel.app", lit "Queued") ].
Proof.
  destruct (@C6_primary_parser no_unicode_alnum true demo_output []
              (lit "Age  Deployment  Status  Environment  Duration")
              (tl (split_nl demo_output)))
    as [G1 [_ [_ [_ G5]]]].
  - reflexivity.
  - reflexivity.
  - reflexivity.
  - vm_compute. lia.
  - apply Forall_forall. intros row Hin. vm_compute in Hin.
    destruct Hin as [<-|[<-|[<-|[]]]]; [right | left | left]; reflexivity.
  - cbn zeta in G1, G5. rewrite G5.
    + rewrite G1. vm_compute. reflexivity.
    + right. rewrite G1. vm_compute. discriminate.
Defined.

Lemma C7_witness :
  deployments (primary_loop no_unicode_alnum (enumerate 0 (split_nl two_headers)) init_vars)
  = [(lit "https://demo-a.vercel.app", lit "Building")] /\
  has_header_keyword (lit "age  deployment  status  environment  duration") = false.
Proof.
  destruct (C7_header_classification no_unicode_alnum false two_headers) as [_ G].
  cbn zeta in G. split; [|reflexivity].
  rewrite (G [] (lit "Age  Deployment  Status") (tl (split_nl two_headers))).
  - vm_compute. reflexivity.
  - reflexivity.
  - reflexivity.
  - reflexivity.
Defined.

Lemma C8_witness :
  let c := cleanup_project_deployments no_unicode_alnum false
             lister_timing_out deleter_ok demo tt in
  success_count c = 0 /\ attempted c = 0 /\ deleted (actions c) = [] /\
  existsb is_delete (actions c) = false.
Proof.
  destruct (@C8_lister_failure no_unicode_alnum false unit lister_timing_out
              deleter_ok demo tt tt []
              {| success_count := 0; attempted := 0; world := tt; actions := [] |})
    as [G1 [G2 [G3 [G4 _]]]].
  - reflexivity.
  - cbn zeta. auto.
Defined.

Lemma C9_witness :
  let c := cleanup_project_deployments no_unicode_alnum false
             (lister_printing demo_output) deleter_failing demo tt in
  success_count c <= attempted c /\ attempted c = 1.
Proof.
  destruct (@C9_project_outcome no_unicode_alnum false unit
              (lister_printing demo_output) deleter_failing demo tt) as [G1 G2].
  cbn zeta. split; [exact G1|].
  destruct (G2 tt demo_output eq_refl ltac:(discriminate)) as [G _].
  rewrite G; vm_compute; [reflexivity | lia].
Defined.

Lemma C10_witness :
  fallback_row no_unicode_alnum indented_url_lines 1 (lit "  https://a.vercel.app") init_vars
  = emit (LogFallbackNoMatch (lit "  https://a.vercel.app"))
         (emit (LogFallbackRow 1 (lit "  https://a.vercel.app")) init_vars).
Proof.
  destruct (@C10_bare_url_anchored no_unicode_alnum indented_url_lines 1
              (lit "  https://a.vercel.app") init_vars) as [_ [_ G]].
  - reflexivity.
  - reflexivity.
  - apply G. reflexivity.
Defined.


(** C6 does not hold as stated: below a header, a Ready row and a Building
    row; the Ready row matches neither pattern 1 nor pattern 2, yet pattern
    5 reads build in its last column, so the row yields a record and the
    result has two records for one row that is Building or Queued. *)
Lemma C6_counterexample :
  has_header_keyword (hd [] (split_nl ready_row_of_builder)) = true /\
  List.map (contains (lit "Ready")) (data_rows (tl (split_nl ready_row_of_builder)))
  = [true; false] /\
  List.map (is_transient_row no_unicode_alnum)
           (data_rows (tl (split_nl ready_row_of_builder))) = [false; true] /\
  deployments (primary_loop no_unicode_alnum
                 (enumerate 0 (split_nl ready_row_of_builder)) init_vars)
  = [ (lit "https://demo-c.vercel.app", lit "build");
      (lit "https://demo-a.vercel.app", lit "Building") ] /\
  parse_deployments no_unicode_alnum false ready_row_of_builder
  = [ (lit "https://demo-c.vercel.app", lit "build");
      (lit "https://demo-a.vercel.app", lit "Building") ].
Proof. vm_compute. repeat split; reflexivity. Qed.

(** Pattern 4 asks for no white space before the status, so it also reads
    a status inside the URL of a row that is Ready: outside the rows of C6,
    which carry no such text. *)
Remark pattern4_reads_status_inside_url :
  parse_deployments no_unicode_alnum false ready_with_building_url
  = [(lit "https://my-", lit "building")].
Proof. vm_compute. reflexivity. Qed.

(** * Further properties of the parser *)

Lemma flat_map_length_le {A B} (f : A -> list B) (xs : list A) :
  (forall x, In x xs -> length (f x) <= 1) ->
  length (flat_map f xs) <= length xs.
Proof.
  induction xs as [|x xs IH]; intros H; [cbn; lia|].
  cbn [flat_map length]. rewrite length_app.
  pose proof (H x (or_introl eq_refl)).
  assert (length (flat_map f xs) <= length xs) by (apply IH; intros y Hy; apply H; now right).
  lia.
Qed.

Lemma flat_map_length_filter {A B} (f : A -> list B) (g : A -> bool) (xs : list A) :
  (forall x, In x xs -> length (f x) <= 1) ->
  (forall x d, In x xs -> In d (f x) -> g x = true) ->
  length (flat_map f xs) <= length (filter g xs).
Proof.
  induction xs as [|x xs IH]; intros H1 H2; [cbn; lia|].
  cbn [flat_map filter]. rewrite length_app.
  assert (IH' : length (flat_map f xs) <= length (filter g xs)).
  { apply IH; [intros y Hy; apply H1; now right
              | intros y d Hy Hd; apply (H2 y d); [now right | exact Hd]]. }
  pose proof (H1 x (or_introl eq_refl)) as Hx.
  destruct (f x) as [|d ds] eqn:E.
  - cbn [length]. destruct (g x); cbn [length]; lia.
  - rewrite (H2 x d (or_introl eq_refl)) by (rewrite E; now left).
    cbn [length] in *. lia.
Qed.

Lemma filter_length_sub {A} (f g : A -> bool) (xs : list A) :
  (forall x, In x xs -> f x = true -> g x = true) ->
  length (filter f xs) <= length (filter g xs).
Proof.
  induction xs as [|x xs IH]; intros H; [cbn; lia|].
  cbn [filter].
  assert (IH' : length (filter f xs) <= length (filter g xs))
    by (apply IH; intros y Hy; apply H; now right).
  destruct (f x) eqn:Ef.
  - rewrite (H x (or_introl eq_refl) Ef). cbn [length]. lia.
  - destruct (g x); cbn [length]; lia.
Qed.

Lemma filter_length_firstn {A} (g : A -> bool) (n : nat) (xs : list A) :
  length (filter g (firstn n xs)) <= length (filter g xs).
Proof.
  rewrite <- (firstn_skipn n xs) at 2. rewrite filter_app, length_app. lia.
Qed.

Lemma filter_enumerate {A} (g : A -> bool) (xs : list A) :
  forall n,
    length (filter (fun item => g (snd item)) (enumerate n xs))
    = length (filter g xs).
Proof.
  induction xs as [|x xs IH]; intros n; [reflexivity|].
  rewrite enumerate_cons. cbn [filter snd].
  destruct (g x); cbn [length]; now rewrite IH.
Qed.

Section ParserExtras.

Variable unicode_alnum : char -> bool.

Abbreviation rows_of := (row_records unicode_alnum).
Abbreviation records_at := (fallback_records unicode_alnum).
Abbreviation structured := (structured_parse unicode_alnum).
Abbreviation search_i := (re_search unicode_alnum true).

(** Whatever a match binds is a piece of the text searched. *)
Lemma capture_pieces (ic : bool) (p : re) (text : str) (m : captures) :
  re_search unicode_alnum ic p text = Some m ->
  forall n s, In (n, s) m -> contains s text = true.
Proof.
  intros Hs n s Hin. apply re_search_sound in Hs.
  destruct Hs as [pre [rest [bef' [aft' [-> Hr]]]]].
  apply runs_groups in Hr. destruct Hr as [new [Hnew Hsub]].
  rewrite rev_involutive, app_nil_r in *. subst new.
  apply contains_app. now apply (Hsub n s).
Qed.

Lemma url_shows_https (u l : str) :
  is_url true u -> contains u l = true -> contains_ci https l = true.
Proof.
  intros [h [body [-> [_ [Hh _]]]]] Hc. apply contains_app in Hc.
  destruct Hc as [x [y ->]]. apply contains_ci_at.
  rewrite <- app_assoc. apply (startswith_ci_prefix https []).
  now rewrite app_nil_r.
Qed.

Lemma is_url_any_case (u : str) : is_url false u -> is_url true u.
Proof.
  intros [h [body [E [Hl [-> H]]]]]. exists https, body. repeat split; tauto.
Qed.

(** A row of the first loop yields at most one record, for a URL of the row. *)
Lemma row_records_url (row : str) :
  length (rows_of row) <= 1 /\
  forall d, In d (rows_of row) -> is_url true (fst d) /\ contains (fst d) row = true.
Proof.
  unfold row_records, parse_row.
  destruct (first_match unicode_alnum (enumerate 0 patterns) row) as [[idx m]|] eqn:E.
  - cbn [deployments emit append init_vars app length]. split; [lia|].
    intros d [<-|[]]. apply first_match_In in E. destruct E as [p [Hp Hs]].
    apply enumerate_In in Hp.
    pose proof (capture_pieces _ _ _ Hs) as Hpiece.
    apply patterns_capture in Hs; [|exact Hp].
    destruct Hs as [u [st [-> [Hu _]]]]. cbn [fst group get_group Nat.eqb].
    split; [exact Hu|]. apply (Hpiece 1). right. now left.
  - cbn. split; [lia | intros d []].
Qed.

(** A line of the headerless loop yields at most one record, for a URL of
    the line. *)
Lemma fallback_records_url (lines : list str) (i : nat) (l : str) :
  length (records_at lines i l) <= 1 /\
  forall d, In d (records_at lines i l) ->
            is_url true (fst d) /\ contains (fst d) l = true.
Proof.
  unfold fallback_records. destruct (fallback_skips l); [cbn; split; [lia | intros d []]|].
  unfold fallback_row. destruct (contains https l); [|cbn; split; [lia | intros d []]].
  rewrite fallback_match_spec.
  destruct (search_i fallback_pattern1 l) as [m|] eqn:E1.
  { pose proof (capture_pieces _ _ _ E1) as Hpiece.
    apply (@fallback_status_capture unicode_alnum 0 fallback_pattern1) in E1; [|lia|reflexivity].
    destruct E1 as [u [st [-> [Hu _]]]]. cbn. split; [lia|]. intros d [<-|[]].
    split; [exact Hu|]. apply (Hpiece 1). right. now left. }
  destruct (search_i fallback_pattern2 l) as [m|] eqn:E2.
  { pose proof (capture_pieces _ _ _ E2) as Hpiece.
    apply (@fallback_status_capture unicode_alnum 1 fallback_pattern2) in E2; [|lia|reflexivity].
    destruct E2 as [u [st [-> [Hu _]]]]. cbn. split; [lia|]. intros d [<-|[]].
    split; [exact Hu|]. apply (Hpiece 1). right. now left. }
  destruct (search_i fallback_pattern3 l) as [m|] eqn:E3; [|cbn; split; [lia | intros d []]].
  apply fallback_url_capture in E3. destruct E3 as [u [rest [-> [Hu ->]]]].
  destruct (neighbour_found unicode_alnum lines i (window lines i)) as [[j st]|];
    cbn; (split; [lia|]); [|intros d []].
  intros d [<-|[]]. split; [exact Hu|]. apply contains_app. now exists [], rest.
Qed.

(** A guess of the last strategy is at most one record, for a URL of the
    line. *)
Lemma guess_url (item : nat * str) :
  length (guess unicode_alnum item) <= 1 /\
  forall d, In d (guess unicode_alnum item) ->
            is_url true (fst d) /\ contains (fst d) (snd item) = true.
Proof.
  destruct item as [i l]. unfold guess.
  destruct (re_search unicode_alnum false bare_url l) as [m|] eqn:E;
    [|cbn; split; [lia | intros d []]].
  apply bare_url_capture in E. destruct E as [u [-> [Hu [x [y ->]]]]].
  cbn. split; [lia|]. intros d [<-|[]]. split; [now apply is_url_any_case|].
  apply contains_app. now exists x, y.
Qed.

Lemma candidate_line (lines : list str) (i : nat) (l : str) :
  forall n,
    In (i, l) (enumerate n (firstn 3 (List.map strip (url_candidates lines)))) ->
    exists l0, In l0 lines /\ l = strip l0 /\ contains https l0 = true.
Proof.
  intros n Hin. apply enumerate_In in Hin.
  assert (Hin' : In l (List.map strip (url_candidates lines))).
  { rewrite <- (firstn_skipn 3 (List.map strip (url_candidates lines))).
    apply in_or_app. now left. }
  apply in_map_iff in Hin'. destruct Hin' as [l0 [<- Hl0]].
  unfold url_candidates in Hl0. apply filter_In in Hl0.
  destruct Hl0 as [Hl0 Hc]. apply andb_true_iff in Hc.
  exists l0. tauto.
Qed.

Lemma strip_piece (st l : str) :
  contains st (strip l) = true -> contains st l = true.
Proof.
  intros H. destruct (strip_decompose l) as [a [b [E _]]].
  rewrite E. now apply contains_piece.
Qed.

Lemma structured_cases (lines : list str) :
  (forallb (fun l => negb (has_header_keyword l)) lines = true /\
   deployments (structured lines)
   = flat_map (fun item => records_at lines (fst item) (snd item)) (enumerate 0 lines)) \/
  (exists pre hdr below,
      lines = pre ++ hdr :: below /\
      forallb (fun l => negb (has_header_keyword l)) pre = true /\
      has_header_keyword hdr = true /\
      deployments (structured lines)
      = flat_map rows_of (firstn MAX_PARSE_ROWS (data_rows below))).
Proof.
  destruct (first_header_split lines) as [H|[pre [hdr [below [E [H1 H2]]]]]].
  - left. split; [exact H|]. now destruct (structured_headerless unicode_alnum lines H).
  - right. exists pre, hdr, below. repeat split; auto.
    rewrite E, structured_with_header by assumption.
    now destruct (primary_with_header unicode_alnum pre hdr below H1 H2) as [_ [Hd _]].
Qed.

(** X1. With a header, [parse_deployments] returns at most ten records,
    whatever the switch; the two loops take nothing from the header line or
    from the lines above it, and nothing from the lines after the tenth
    data row. *)
Theorem header_caps_the_result (ac : bool) (output : str) (pre : list str)
        (hdr : str) (below : list str) :
  split_nl output = pre ++ hdr :: below ->
  forallb (fun l => negb (has_header_keyword l)) pre = true ->
  has_header_keyword hdr = true ->
  length (parse_deployments unicode_alnum ac output) <= 10 /\
  (forall pre' hdr',
      forallb (fun l => negb (has_header_keyword l)) pre' = true ->
      has_header_keyword hdr' = true ->
      deployments (structured (pre' ++ hdr' :: below))
      = deployments (structured (pre ++ hdr :: below))) /\
  (forall more,
      10 <= length (data_rows below) ->
      deployments (structured (pre ++ hdr :: below ++ more))
      = deployments (structured (pre ++ hdr :: below))).
Proof.
  intros Hsplit Hpre Hhdr.
  assert (Hs : forall p h b,
             forallb (fun l => negb (has_header_keyword l)) p = true ->
             has_header_keyword h = true ->
             deployments (structured (p ++ h :: b))
             = flat_map rows_of (firstn MAX_PARSE_ROWS (data_rows b))).
  { intros p h b Hp Hh. rewrite structured_with_header by assumption.
    now destruct (primary_with_header unicode_alnum p h b Hp Hh) as [_ [Hd _]]. }
  split; [|split].
  - rewrite parse_deployments_spec. cbn zeta. rewrite Hsplit.
    match goal with |- length (if ?c then _ else _) <= _ => destruct c end.
    + destruct ac; [|cbn; lia].
      match goal with |- length (flat_map _ ?xs) <= _ =>
        assert (Hl : length (flat_map (guess unicode_alnum) xs) <= length xs)
          by (apply flat_map_length_le; intros x _; apply guess_url);
        assert (Hx : length xs <= 3)
          by (rewrite enumerate_length; apply firstn_le_length)
      end.
      lia.
    + rewrite Hs by assumption.
      match goal with |- length (flat_map _ ?xs) <= _ =>
        assert (Hl : length (flat_map rows_of xs) <= length xs)
          by (apply flat_map_length_le; intros x _; apply row_records_url);
        assert (Hx : length xs <= 10) by apply firstn_le_length
      end.
      lia.
  - intros pre' hdr' Hpre' Hhdr'. now rewrite !Hs by assumption.
  - intros more Hten. rewrite !Hs by assumption. f_equal.
    unfold data_rows. rewrite filter_app. fold (data_rows below) (data_rows more).
    unfold MAX_PARSE_ROWS. rewrite firstn_app.
    replace (10 - length (data_rows below)) with 0 by lia.
    cbn [firstn]. now rewrite app_nil_r.
Qed.

(** X2. Without the opt-in switch, and with the switch as soon as the two
    loops found a record, [parse_deployments] returns what the two loops
    found: no record is ever guessed. *)
Theorem no_guess_without_opt_in (output : str) :
  parse_deployments unicode_alnum false output
  = deployments (structured (split_nl output)) /\
  (forall ac,
      deployments (structured (split_nl output)) <> [] ->
      parse_deployments unicode_alnum ac output
      = deployments (structured (split_nl output))).
Proof.
  split.
  - rewrite parse_deployments_spec. cbn zeta.
    destruct (Nat.eqb_spec (length (deployments (structured (split_nl output)))) 0) as [E|E];
      [|reflexivity].
    apply length_zero_iff_nil in E. rewrite E.
    now destruct (3 <=? length (url_candidates (split_nl output))).
  - intros ac Hne. rewrite parse_deployments_spec. cbn zeta.
    destruct (deployments (structured (split_nl output))); [congruence | reflexivity].
Qed.

(** X3. Every record of [parse_deployments] is for a URL: [https://] in
    some letter case, then at least one code point, none of them white
    space; and this URL is a piece of the output. *)
Theorem records_are_urls_of_the_output (ac : bool) (output : str) :
  Forall (fun d => is_url true (fst d) /\ contains (fst d) output = true)
         (parse_deployments unicode_alnum ac output).
Proof.
  apply Forall_forall. intros d. rewrite parse_deployments_spec. cbn zeta.
  assert (Hline : forall l u, In l (split_nl output) -> contains u l = true ->
                              contains u output = true).
  { intros l u Hl Hc. apply split_nl_In in Hl. destruct Hl as [a [b ->]].
    now apply contains_piece. }
  set (lines := split_nl output) in *.
  assert (HS : In d (deployments (structured lines)) ->
               is_url true (fst d) /\ contains (fst d) output = true).
  { destruct (structured_cases lines) as [[_ ->]|[pre [hdr [below [E [_ [_ ->]]]]]]].
    - rewrite in_flat_map. intros [[i l] [Hil Hin]].
      apply fallback_records_url in Hin. destruct Hin as [Hu Hc]. cbn [snd] in Hc.
      split; [exact Hu|]. apply (Hline l); [|exact Hc]. now apply enumerate_In in Hil.
    - rewrite in_flat_map. intros [row [Hrow Hin]].
      apply row_records_url in Hin. destruct Hin as [Hu Hc].
      split; [exact Hu|]. apply (Hline row); [|exact Hc].
      assert (Hrow' : In row (data_rows below)).
      { rewrite <- (firstn_skipn MAX_PARSE_ROWS (data_rows below)).
        apply in_or_app. now left. }
      apply filter_In in Hrow'. destruct Hrow' as [Hrow' _].
      rewrite E. apply in_or_app. right. now right. }
  match goal with |- In d (if ?c then _ else _) -> _ => destruct c end; [|exact HS].
  destruct ac; [|intros []].
  rewrite in_flat_map. intros [[i l] [Hil Hin]].
  apply guess_url in Hin. destruct Hin as [Hu Hc]. cbn [snd] in Hc.
  split; [exact Hu|].
  apply candidate_line in Hil. destruct Hil as [l0 [Hl0 [-> _]]].
  apply (Hline l0); [exact Hl0|]. now apply strip_piece.
Qed.

(** X4. An output that holds [https://] in no letter case yields no record,
    with or without the opt-in switch. *)
Theorem no_https_no_records (ac : bool) (output : str) :
  contains_ci https output = false ->
  parse_deployments unicode_alnum ac output = [].
Proof.
  intros H. pose proof (records_are_urls_of_the_output ac output) as F.
  destruct (parse_deployments unicode_alnum ac output) as [|d ds]; [reflexivity|].
  inversion F as [|? ? [Hu Hc] _]; subst.
  rewrite (@url_shows_https _ _ Hu Hc) in H. discriminate.
Qed.

(** X5. [parse_deployments] never returns more records than the output has
    lines with [https://] in some letter case: a line gives at most one
    record. *)
Theorem at_most_one_record_per_url_line (ac : bool) (output : str) :
  length (parse_deployments unicode_alnum ac output)
  <= length (filter (contains_ci https) (split_nl output)).
Proof.
  rewrite parse_deployments_spec. cbn zeta.
  set (lines := split_nl output).
  assert (HS : length (deployments (structured lines))
               <= length (filter (contains_ci https) lines)).
  { destruct (structured_cases lines) as [[_ ->]|[pre [hdr [below [E [_ [_ ->]]]]]]].
    - rewrite <- (filter_enumerate (contains_ci https) lines 0).
      apply flat_map_length_filter.
      + intros [i l] _. apply fallback_records_url.
      + intros [i l] d _ Hd. apply fallback_records_url in Hd.
        destruct Hd as [Hu Hc]. exact (@url_shows_https _ _ Hu Hc).
    - etransitivity.
      { apply (flat_map_length_filter rows_of (contains_ci https)).
        - intros x _. apply row_records_url.
        - intros x d _ Hd. apply row_records_url in Hd.
          destruct Hd as [Hu Hc]. exact (@url_shows_https _ _ Hu Hc). }
      etransitivity; [apply filter_length_firstn|].
      unfold data_rows.
      etransitivity.
      { apply (filter_length_sub (contains_ci https) (contains_ci https)).
        intros x _ Hx. exact Hx. }
      assert (Hf : forall xs : list str,
                 length (filter (contains_ci https) (filter (fun l => negb (blank l)) xs))
                 <= length (filter (contains_ci https) xs)).
      { induction xs as [|x xs IH]; [cbn; lia|].
        cbn [filter]. destruct (negb (blank x)); cbn [filter];
          destruct (contains_ci https x); cbn [length]; lia. }
      etransitivity; [apply Hf|].
      rewrite E, filter_app, length_app. cbn [filter].
      destruct (contains_ci https hdr); cbn [length]; lia. }
  match goal with |- length (if ?c then _ else _) <= _ => destruct c eqn:Ec end;
    [|exact HS].
  destruct ac; [|cbn; lia].
  apply andb_true_iff in Ec. destruct Ec as [_ Ec]. apply Nat.leb_le in Ec.
  match goal with |- length (flat_map _ ?xs) <= _ =>
    assert (Hl : length (flat_map (guess unicode_alnum) xs) <= length xs)
      by (apply flat_map_length_le; intros x _; apply guess_url);
    assert (Hx : length xs <= length (url_candidates lines))
      by (rewrite enumerate_length, length_firstn, length_map; apply Nat.le_min_r)
  end.
  assert (Hc : length (url_candidates lines) <= length (filter (contains_ci https) lines)).
  { unfold url_candidates. apply filter_length_sub. intros l _ Hl'.
    apply andb_true_iff in Hl'. destruct Hl' as [Hl' _].
    apply contains_app in Hl'. destruct Hl' as [a [b ->]].
    apply contains_ci_at. apply (startswith_ci_prefix https []).
    now rewrite app_nil_r. }
  lia.
Qed.

End ParserExtras.

Section FallbackExtras.

Variable unicode_alnum : char -> bool.

Abbreviation records_at := (fallback_records unicode_alnum).
Abbreviation search_i := (re_search unicode_alnum true).
Abbreviation status_near := (status_at unicode_alnum).

(** X6. In the headerless loop a status on the line of the URL wins: a
    line with [https://] that the loop does not skip (once trimmed it does
    not start with [>] or with [You can learn more]) and that matches the
    first or the second pattern yields one record, with a status of that
    line, wherever the line stands and whatever the lines around it
    hold. *)
Theorem same_line_status_wins (line : str) :
  contains https line = true -> fallback_skips line = false ->
  search_i fallback_pattern1 line <> None \/ search_i fallback_pattern2 line <> None ->
  exists u st,
    is_url true u /\ is_status st = true /\ contains st line = true /\
    forall lines i, records_at lines i line = [(u, st)].
Proof.
  intros Hc Hskip Hm.
  destruct (search_i fallback_pattern1 line) as [m|] eqn:E1.
  - pose proof (capture_pieces _ _ _ _ E1) as Hpiece.
    pose proof E1 as E1'.
    apply (@fallback_status_capture unicode_alnum 0 fallback_pattern1) in E1';
      [|lia|reflexivity].
    destruct E1' as [u [st [-> [Hu [Hst _]]]]].
    exists u, st. repeat split; auto; [apply (Hpiece 2); now left|].
    intros lines i. unfold fallback_records, fallback_row.
    now rewrite Hskip, Hc, fallback_match_spec, E1.
  - destruct (search_i fallback_pattern2 line) as [m|] eqn:E2; [|destruct Hm; congruence].
    pose proof (capture_pieces _ _ _ _ E2) as Hpiece.
    pose proof E2 as E2'.
    apply (@fallback_status_capture unicode_alnum 1 fallback_pattern2) in E2';
      [|lia|reflexivity].
    destruct E2' as [u [st [-> [Hu [Hst _]]]]].
    exists u, st. repeat split; auto; [apply (Hpiece 2); now left|].
    intros lines i. unfold fallback_records, fallback_row.
    now rewrite Hskip, Hc, fallback_match_spec, E1, E2.
Qed.



End FallbackExtras.

(** * Further properties of the cleanup *)

Lemma success_le_deletes (acts : list action) :
  length (filter is_success acts) <= length (filter is_delete acts) /\
  (length (filter is_success acts) = length (filter is_delete acts) <->
   forallb delete_ok acts = true).
Proof.
  induction acts as [|a acts [IH1 IH2]]; [cbn; split; [lia | tauto]|].
  destruct a as [p|p|u s|u s [|]|]; cbn [filter is_success is_delete delete_ok forallb andb length];
    try (split; [lia | exact IH2]).
  - split; [lia|]. rewrite <- IH2. split; lia.
  - split; [lia|]. split; [lia | discriminate].
Qed.

Lemma counted_exit_code (World : Type) (c : cleanup World) :
  counted c -> (exit_code c = 0 <-> forallb delete_ok (actions c) = true).
Proof.
  intros [H1 H2]. destruct (success_le_deletes (actions c)) as [L1 L2].
  unfold exit_code. rewrite H1, H2, <- L2.
  destruct (Nat.ltb_spec (length (filter is_success (actions c)))
                         (length (filter is_delete (actions c)))); split;
    intros; try discriminate; lia.
Qed.

Section CleanupExtras.

Variable unicode_alnum : char -> bool.
Variable auto_confirm : bool.
Variable World : Type.
Variable run_list : str -> nat -> nat -> World -> option completed * World.
Variable run_delete : str -> World -> option completed * World.

Abbreviation cleanup_of :=
  (cleanup_project_deployments unicode_alnum auto_confirm run_list run_delete).
Abbreviation projects_run :=
  (process_projects unicode_alnum auto_confirm run_list run_delete).
Abbreviation lister := (list_deployments run_list).

Lemma delete_loop_counted (total : nat) (items : list (nat * deployment)) :
  forall c, counted c -> counted (delete_loop run_delete total items c).
Proof.
  induction items as [|[i [u s]] items IH]; intros c [H1 H2]; [now split|].
  cbn [delete_loop]. destruct (Nat.eqb i 1).
  - apply IH. unfold counted. cbn [attempted success_count actions].
    rewrite !filter_app. cbn [filter is_delete is_success]. now rewrite !app_nil_r.
  - destruct (delete_deployment run_delete u (world c)) as [ok w].
    apply IH. unfold counted. cbn [attempted success_count actions].
    rewrite !filter_app, !length_app.
    destruct ok, (i <? total); cbn [filter is_delete is_success app length]; lia.
Qed.

Lemma cleanup_counted (project : str) (w : World) : counted (cleanup_of project w).
Proof.
  unfold cleanup_project_deployments.
  destruct (lister project w) as [[[|c0 output]|] w']; try (now split).
  destruct (parse_deployments unicode_alnum auto_confirm (c0 :: output)); [now split|].
  apply delete_loop_counted. now split.
Qed.

Lemma projects_counted (projects : list str) :
  forall c, counted c -> counted (projects_run projects c).
Proof.
  induction projects as [|p projects IH]; intros c [H1 H2]; [now split|].
  cbn [process_projects]. apply IH.
  destruct (cleanup_counted p (world c)) as [R1 R2].
  unfold counted. cbn [attempted success_count actions].
  rewrite !filter_app, !length_app. lia.
Qed.

(** X8. The totals of a run are counts of deleter calls: the attempts are
    the calls made, the successes are the calls answered with success; so
    there are never more successes than attempts, and as many exactly when
    no call failed. *)
Theorem totals_count_the_deleter_calls (projects : list str) (w : World) :
  let c := projects_run projects
             {| success_count := 0; attempted := 0; world := w; actions := [] |} in
  attempted c = length (filter is_delete (actions c)) /\
  success_count c = length (filter is_success (actions c)) /\
  success_count c <= attempted c /\
  (success_count c = attempted c <-> forallb delete_ok (actions c) = true) /\
  (exit_code c = 0 <-> forallb delete_ok (actions c) = true).
Proof.
  cbn zeta.
  match goal with |- context [projects_run projects ?c0] =>
    destruct (@projects_counted projects c0) as [H1 H2]; [now split|];
    set (c := projects_run projects c0) in *
  end.
  destruct (success_le_deletes (actions c)) as [L1 L2].
  rewrite H1, H2. repeat split; auto; try apply L2.
  - unfold exit_code. rewrite H1, H2.
    destruct (Nat.ltb_spec (length (filter is_success (actions c)))
                           (length (filter is_delete (actions c)))) as [Hlt|Hge];
      [discriminate|].
    intros _. apply L2. lia.
  - intros Hok. apply L2 in Hok. unfold exit_code. rewrite H1, H2, Hok.
    now rewrite Nat.ltb_irrefl.
Qed.

Lemma delete_loop_actions (total : nat) (ds : list deployment) :
  forall k c,
    2 <= k -> total + 1 = k + length ds ->
    exists oks,
      length oks = length ds /\
      actions (delete_loop run_delete total (enumerate k ds) c)
      = actions c ++ intersperse Sleep (delete_calls ds oks).
Proof.
  induction ds as [|[u s] ds IH]; intros k c Hk Ht.
  - exists []. cbn. now rewrite app_nil_r.
  - rewrite enumerate_cons. cbn [delete_loop length] in *.
    destruct (Nat.eqb_spec k 1) as [E|_]; [lia|].
    destruct (delete_deployment run_delete u (world c)) as [ok w].
    match goal with |- context [delete_loop _ _ _ ?c0] =>
      destruct (IH (S k) c0) as [oks [Hl Ha]]; [lia | lia |]
    end.
    exists (ok :: oks). split; [cbn; lia|].
    rewrite Ha. cbn [actions].
    unfold delete_calls. cbn [combine List.map fst snd].
    destruct ds as [|d' ds'].
    + destruct oks; [|discriminate]. cbn [length] in Ht.
      destruct (Nat.ltb_spec k total); [lia|]. cbn. now rewrite !app_nil_r.
    + destruct oks as [|ok' oks']; [discriminate|]. cbn [length] in Ht.
      destruct (Nat.ltb_spec k total); [|lia].
      cbn [combine List.map intersperse].
      now rewrite <- !app_assoc.
Qed.

(** X10. The pause is between two deletions only: for the records
    [d :: ds] of a project, the actions are keeping [d], then the deleter
    calls for [ds] in order with one pause between two calls: none before
    the first call and none after the last. *)
Theorem pause_between_deletions (project : str) (w w' : World) (output : str)
        (d : deployment) (ds : list deployment) :
  lister project w = (Some output, w') -> output <> [] ->
  parse_deployments unicode_alnum auto_confirm output = d :: ds ->
  exists oks,
    length oks = length ds /\
    actions (cleanup_of project w)
    = Keep (fst d) (snd d) :: intersperse Sleep (delete_calls ds oks).
Proof.
  intros Hl Hne Hp. unfold cleanup_project_deployments. rewrite Hl.
  destruct output as [|c0 output]; [congruence|]. rewrite Hp.
  rewrite enumerate_cons. destruct d as [u s]. cbn [delete_loop Nat.eqb fst snd].
  match goal with |- context [delete_loop _ ?t (enumerate 2 ds) ?c0] =>
    destruct (@delete_loop_actions t ds 2 c0) as [oks [Hlen Ha]];
      [lia | cbn [length]; lia |]
  end.
  exists oks. split; [exact Hlen|]. now rewrite Ha.
Qed.

(** X11. Records are not compared with one another: when the first record
    of a project occurs again further down, the deployment that is kept is
    also handed to the deleter. *)
Theorem duplicate_is_kept_and_deleted (project : str) (w w' : World)
        (output : str) (d : deployment) (ds : list deployment) :
  lister project w = (Some output, w') -> output <> [] ->
  parse_deployments unicode_alnum auto_confirm output = d :: ds ->
  In d ds ->
  In d (retained (actions (cleanup_of project w))) /\
  In d (deleted (actions (cleanup_of project w))).
Proof.
  intros Hl Hne Hp Hin.
  destruct (cleanup_with_output unicode_alnum auto_confirm run_list run_delete
              project w Hl Hne) as [R1 [R2 _]].
  rewrite R1, R2, Hp. cbn [firstn skipn]. split; [now left | exact Hin].
Qed.

(** X12. The text the lister returns is never blank. *)
Theorem lister_output_not_blank (project : str) (w : World) (output : str) :
  fst (lister project w) = Some output -> truthy (strip output) = true.
Proof.
  unfold list_deployments. generalize [0; 1; 2] as cmds. intros cmds. revert w.
  induction cmds as [|cmd cmds IH]; intros w; cbn [try_commands]; [discriminate|].
  destruct (run_methods run_list project cmd [0; 1; 2] w) as [[r|] w1]; [|apply IH].
  destruct (truthy (strip (combined_output r))) eqn:E; [|apply IH].
  cbn [fst]. intros H. injection H as <-. exact E.
Qed.

End CleanupExtras.

Section ListerExtras.

Variable World : Type.
Variable run_list run_list' : str -> nat -> nat -> World -> option completed * World.

Lemma same_print_combined (r r' : completed) :
  stdout r = stdout r' -> stderr r = stderr r' ->
  combined_output r = combined_output r'.
Proof. intros H1 H2. unfold combined_output. now rewrite H1, H2. Qed.

(** X13. The exit status of the listing command decides nothing: two tools
    that print the same and leave the same world give the lister the same
    result, whatever their exit statuses. *)
Theorem lister_ignores_exit_status (project : str) :
  (forall cmd method w,
      same_print (fst (run_list project cmd method w))
                 (fst (run_list' project cmd method w)) /\
      snd (run_list project cmd method w) = snd (run_list' project cmd method w)) ->
  forall w, list_deployments run_list project w = list_deployments run_list' project w.
Proof.
  intros H.
  assert (Hm : forall cmd methods w,
             same_print (fst (run_methods run_list project cmd methods w))
                        (fst (run_methods run_list' project cmd methods w)) /\
             snd (run_methods run_list project cmd methods w)
             = snd (run_methods run_list' project cmd methods w)).
  { intros cmd methods. induction methods as [|m methods IH]; intros w.
    - cbn. auto.
    - cbn [run_methods]. destruct (H cmd m w) as [H1 H2].
      destruct (run_list project cmd m w) as [[r|] w1],
               (run_list' project cmd m w) as [[r'|] w1']; cbn in H1, H2;
        try contradiction; subst w1'.
      + cbn. auto.
      + apply IH. }
  unfold list_deployments. generalize [0; 1; 2] as cmds.
  induction cmds as [|cmd cmds IH]; intros w; [reflexivity|].
  cbn [try_commands]. destruct (Hm cmd [0; 1; 2] w) as [H1 H2].
  destruct (run_methods run_list project cmd [0; 1; 2] w) as [[r|] w1],
           (run_methods run_list' project cmd [0; 1; 2] w) as [[r'|] w1'];
    cbn in H1, H2; try contradiction; subst w1'.
  - destruct H1 as [Ho He]. rewrite (same_print_combined r r' Ho He).
    destruct (truthy (strip (combined_output r'))); [reflexivity | apply IH].
  - apply IH.
Qed.

End ListerExtras.

(** * The project list and [main] *)

Lemma strip_fixed (s : str) (c c' : char) (t t' : str) :
  s = c :: t -> is_space c = false ->
  rev s = c' :: t' -> is_space c' = false ->
  strip s = s.
Proof.
  intros -> Hc Hr Hc'. unfold strip, rstrip.
  rewrite lstrip_nonspace by exact Hc. rewrite Hr.
  rewrite lstrip_nonspace by exact Hc'. rewrite <- Hr. apply rev_involutive.
Qed.

(** A stripped string is empty or has no white space at either end. *)
Lemma strip_ends (s : str) :
  strip s = [] \/
  exists c t c' t',
    strip s = c :: t /\ is_space c = false /\
    rev (strip s) = c' :: t' /\ is_space c' = false.
Proof.
  unfold strip, rstrip.
  destruct (lstrip (rev (lstrip s))) as [|c' t'] eqn:Eb; [now left|]. right.
  pose proof (lstrip_head _ Eb) as Hc'.
  destruct (lstrip_suffix (rev (lstrip s))) as [sp [Es _]]. rewrite Eb in Es.
  assert (Ea : lstrip s = rev (c' :: t') ++ rev sp).
  { rewrite <- (rev_involutive (lstrip s)), Es. now rewrite rev_app_distr. }
  destruct (rev (c' :: t')) as [|c t] eqn:Er.
  { apply (f_equal (@length _)) in Er. rewrite length_rev in Er. discriminate. }
  exists c, t, c', t'. repeat split; auto.
  - cbn [app] in Ea. exact (lstrip_head _ Ea).
  - rewrite <- Er. apply rev_involutive.
Qed.

Lemma strip_strip (s : str) : strip (strip s) = strip s.
Proof.
  destruct (strip_ends s) as [->|[c [t [c' [t' [E [Hc [Er Hc']]]]]]]]; [reflexivity|].
  exact (strip_fixed E Hc Er Hc').
Qed.

Lemma strip_all_space (s : str) : forallb is_space s = true -> strip s = [].
Proof. intros H. unfold strip. now rewrite lstrip_all_space. Qed.

Lemma forallb_strip (P : char -> bool) (s : str) :
  forallb P s = true -> forallb P (strip s) = true.
Proof.
  destruct (strip_decompose s) as [l [r [E _]]]. rewrite E at 1.
  rewrite !forallb_app, !andb_true_iff. tauto.
Qed.

Lemma split_char_pieces (sep : char) (s : str) :
  Forall (fun p => existsb (N.eqb sep) p = false) (split_char sep s).
Proof.
  induction s as [|c s IH]; cbn [split_char]; [repeat constructor|].
  destruct (N.eqb_spec c sep) as [E|E].
  - constructor; [reflexivity | exact IH].
  - destruct (split_char sep s) as [|l ls]; [repeat constructor|].
    + cbn. apply orb_false_iff. split; [|reflexivity].
      apply N.eqb_neq. congruence.
    + inversion IH as [|? ? Hl Hls]; subst. constructor; [|exact Hls].
      cbn [existsb]. rewrite Hl. apply orb_false_iff. split; [|reflexivity].
      apply N.eqb_neq. congruence.
Qed.

Lemma split_char_forallb (P : char -> bool) (sep : char) (s : str) :
  forallb (fun c => (P c || N.eqb c sep)%bool) s = true ->
  Forall (fun p => forallb P p = true) (split_char sep s).
Proof.
  induction s as [|c s IH]; cbn [split_char forallb]; [repeat constructor|].
  rewrite andb_true_iff. intros [Hc Hs]. specialize (IH Hs).
  destruct (N.eqb c sep) eqn:E.
  - constructor; [reflexivity | exact IH].
  - rewrite orb_false_r in Hc.
    destruct (split_char sep s) as [|l ls]; [repeat constructor; cbn; now rewrite Hc|].
    inversion IH as [|? ? Hl Hls]; subst. constructor; [|exact Hls].
    cbn [forallb]. now rewrite Hc, Hl.
Qed.

Lemma split_char_plain (sep : char) (p : str) :
  existsb (N.eqb sep) p = false -> split_char sep p = [p].
Proof.
  induction p as [|c p IH]; [reflexivity|].
  cbn [existsb split_char]. rewrite orb_false_iff. intros [Hc Hp].
  rewrite N.eqb_sym, Hc, (IH Hp). reflexivity.
Qed.

Lemma split_char_app (sep : char) (p t : str) :
  existsb (N.eqb sep) p = false ->
  split_char sep (p ++ sep :: t) = p :: split_char sep t.
Proof.
  induction p as [|c p IH]; cbn [existsb app split_char].
  - intros _. now rewrite N.eqb_refl.
  - rewrite orb_false_iff. intros [Hc Hp]. rewrite N.eqb_sym, Hc, (IH Hp). reflexivity.
Qed.

(** Splitting what was joined gives the pieces back. *)
Lemma split_char_join (sep : char) (ps : list str) :
  ps <> [] -> Forall (fun p => existsb (N.eqb sep) p = false) ps ->
  split_char sep (join [sep] ps) = ps.
Proof.
  induction ps as [|p ps IH]; [congruence|]. intros _ H.
  inversion H as [|? ? Hp Hps]; subst. destruct ps as [|q ps].
  - cbn [join]. now apply split_char_plain.
  - cbn [join app]. rewrite split_char_app by exact Hp.
    f_equal. apply IH; [discriminate | exact Hps].
Qed.

Lemma clean_name_ends (p : str) :
  clean_name p ->
  exists c t c' t', p = c :: t /\ is_space c = false /\
                    rev p = c' :: t' /\ is_space c' = false.
Proof.
  intros [Hne [Hs _]]. destruct (strip_ends p) as [E|H].
  - rewrite Hs in E. congruence.
  - now rewrite Hs in H.
Qed.

Lemma join_ends (ps : list str) :
  ps <> [] -> Forall clean_name ps ->
  exists c t c' t', join [comma] ps = c :: t /\ is_space c = false /\
                    rev (join [comma] ps) = c' :: t' /\ is_space c' = false.
Proof.
  induction ps as [|p ps IH]; [congruence|]. intros _ H.
  inversion H as [|? ? Hp Hps]; subst.
  destruct (clean_name_ends Hp) as [c [t [c' [t' [-> [Hc [Er Hc']]]]]]].
  destruct ps as [|q ps].
  - cbn [join]. now exists c, t, c', t'.
  - destruct IH as [d [u [d' [u' [_ [_ [Er' Hd']]]]]]]; [discriminate | exact Hps|].
    cbn [join] in *. exists c, (t ++ [comma] ++ join [comma] (q :: ps)), d'.
    rewrite !rev_app_distr, Er'. cbn [app]. eexists. repeat split; auto.
Qed.

Lemma project_names_clean (value : str) : Forall clean_name (project_names value).
Proof.
  unfold project_names. apply Forall_forall. intros p Hp.
  apply in_map_iff in Hp. destruct Hp as [q [<- Hq]].
  apply filter_In in Hq. destruct Hq as [Hq Ht].
  repeat split.
  - intros E. now rewrite E in Ht.
  - apply strip_strip.
  - pose proof (split_char_pieces comma value) as F.
    rewrite Forall_forall in F. specialize (F q Hq).
    destruct (existsb (N.eqb comma) (strip q)) eqn:E; [|reflexivity].
    apply existsb_exists in E. destruct E as [x [Hx Hc]].
    assert (Hin : In x q).
    { destruct (strip_decompose q) as [l [r [Eq _]]]. rewrite Eq.
      apply in_or_app. right. apply in_or_app. now left. }
    assert (existsb (N.eqb comma) q = true) by (apply existsb_exists; now exists x).
    congruence.
Qed.

Lemma project_names_join (ps : list str) :
  ps <> [] -> Forall clean_name ps -> project_names (join [comma] ps) = ps.
Proof.
  intros Hne H. unfold project_names. rewrite split_char_join.
  - induction H as [|p ps [Hp [Hs _]] _ IH]; [reflexivity|].
    cbn [filter]. rewrite Hs.
    destruct p as [|c p]; [congruence|]. cbn [truthy List.map].
    rewrite Hs. f_equal. destruct ps as [|q ps]; [reflexivity|].
    apply IH. discriminate.
  - exact Hne.
  - apply Forall_forall. intros p Hp. rewrite Forall_forall in H.
    now destruct (H p Hp) as [_ [_ Hc]].
Qed.

Section MainExtras.

Variable unicode_alnum : char -> bool.
Variable auto_confirm : bool.
Variable World : Type.
Variable run_list : str -> nat -> nat -> World -> option completed * World.
Variable run_delete : str -> World -> option completed * World.
Variable run_version : World -> option completed * World.

(** X14. Every project name [get_project_list] returns is not empty, has
    no white space at either end and holds no comma. *)
Theorem project_list_is_clean (getenv : str -> option str) :
  Forall clean_name (get_project_list getenv).
Proof.
  unfold get_project_list.
  destruct (truthy (strip (getenv_or getenv (lit "INPUT_PROJECTS") [])));
    [apply project_names_clean|].
  destruct (truthy (strip (getenv_or getenv (lit "DEFAULT_PROJECTS") [])));
    [apply project_names_clean | constructor].
Qed.

(** X15. A list given by hand that is not blank is the only one read: the
    default list is not looked at, even when the list given by hand holds
    nothing but commas and white space, in which case there is no project
    at all. *)
Theorem manual_list_overrides_default (getenv getenv' : str -> option str)
        (value : str) :
  getenv (lit "INPUT_PROJECTS") = Some value ->
  truthy (strip value) = true ->
  (getenv' (lit "INPUT_PROJECTS") = Some value ->
   get_project_list getenv' = get_project_list getenv) /\
  (forallb (fun c => (is_space c || N.eqb c comma)%bool) value = true ->
   get_project_list getenv = []).
Proof.
  intros Hv Ht.
  assert (E : forall g, g (lit "INPUT_PROJECTS") = Some value ->
                        get_project_list g = project_names (strip value)).
  { intros g Hg. unfold get_project_list, getenv_or. now rewrite Hg, Ht. }
  split.
  - intros Hv'. now rewrite (E getenv Hv), (E getenv' Hv').
  - intros Hall. rewrite (E getenv Hv). unfold project_names.
    apply forallb_strip in Hall. apply split_char_forallb in Hall.
    induction Hall as [|p ps Hp _ IH]; [reflexivity|].
    cbn [filter]. now rewrite (strip_all_space _ Hp).
Qed.

(** X16. Round trip of the project list: names that are not empty, have no
    white space at either end and hold no comma, joined with commas in
    INPUT_PROJECTS, are read back as they are, in order. *)
Theorem project_list_round_trip (getenv : str -> option str) (ps : list str) :
  ps <> [] -> Forall clean_name ps ->
  getenv (lit "INPUT_PROJECTS") = Some (join [comma] ps) ->
  get_project_list getenv = ps.
Proof.
  intros Hne H Hv. unfold get_project_list, getenv_or. rewrite Hv.
  destruct (join_ends Hne H) as [c [t [c' [t' [E [Hc [Er Hc']]]]]]].
  rewrite (strip_fixed E Hc Er Hc'). rewrite E at 1. cbn [truthy].
  now apply project_names_join.
Qed.

(** X17. The exit status of [main] is 0 or 1, and 0 exactly when the tool
    answers its version check with status 0, the token is set and not
    empty, and no call of the deleter failed; when the check fails, the
    token is missing or no project is configured, neither the lister nor
    the deleter is called. *)
Theorem main_exit_status (getenv : str -> option str) (w : World) :
  let r := main unicode_alnum auto_confirm getenv run_list run_delete run_version w in
  let token_set :=
    match getenv (lit "VERCEL_CLI_TOKEN") with Some (_ :: _) => true | _ => false end in
  (fst r = 0 \/ fst r = 1) /\
  (fst r = 0 <->
   fst (check_vercel_cli run_version w) = true /\ token_set = true /\
   forallb delete_ok (actions (snd r)) = true) /\
  (fst (check_vercel_cli run_version w) = false \/ token_set = false \/
   get_project_list getenv = [] ->
   actions (snd r) = [] /\ world (snd r) = snd (run_version w)).
Proof.
  cbn zeta. unfold main.
  assert (Hw : snd (check_vercel_cli run_version w) = snd (run_version w)).
  { unfold check_vercel_cli. now destruct (run_version w) as [[r|] w1]. }
  destruct (check_vercel_cli run_version w) as [cli w1]. cbn [fst snd] in *.
  destruct cli; cbn [negb].
  2:{ cbn. repeat split; auto; try discriminate. now intros [H _]. }
  destruct (getenv (lit "VERCEL_CLI_TOKEN")) as [[|c0 token]|].
  1,3: cbn; repeat split; auto; try discriminate; now intros [_ [H _]].
  destruct (get_project_list getenv) as [|p ps] eqn:Ep.
  { cbn. repeat split; auto. }
  set (c := process_projects unicode_alnum auto_confirm run_list run_delete
              (p :: ps) (no_totals w1)).
  assert (T : exit_code c = 0 <-> forallb delete_ok (actions c) = true).
  { apply counted_exit_code. apply projects_counted. now split. }
  cbn [fst snd]. split; [|split].
  - unfold exit_code. destruct (success_count c <? attempted c); auto.
  - rewrite T. tauto.
  - intros [H|[H|H]]; discriminate.
Qed.

End MainExtras.

(** * The further properties on the example runs *)

Lemma X1_witness :
  length (parse_deployments no_unicode_alnum true twelve_rows) <= 10 /\
  deployments (structured_parse no_unicode_alnum
                 (split_nl twelve_rows ++ [lit "1d  https://dz.vercel.app  Queued"]))
  = deployments (structured_parse no_unicode_alnum (split_nl twelve_rows)).
Proof.
  destruct (@header_caps_the_result no_unicode_alnum true twelve_rows []
              (lit "Age  Deployment  Status") (tl (split_nl twelve_rows)))
    as [G1 [_ G3]].
  - reflexivity.
  - reflexivity.
  - reflexivity.
  - split; [exact G1|].
    apply (G3 [lit "1d  https://dz.vercel.app  Queued"]). vm_compute. lia.
Defined.

Lemma X2_witness :
  parse_deployments no_unicode_alnum true demo_output
  = deployments (structured_parse no_unicode_alnum (split_nl demo_output)).
Proof.
  destruct (no_guess_without_opt_in no_unicode_alnum demo_output) as [_ G].
  apply G. vm_compute. discriminate.
Defined.

Lemma X4_witness :
  parse_deployments no_unicode_alnum true (lit "Error: project not found") = [].
Proof.
  apply (@no_https_no_records no_unicode_alnum true (lit "Error: project not found")).
  reflexivity.
Defined.

Lemma X6_witness :
  exists u st,
    is_url true u /\ is_status st = true /\
    contains st (lit "https://a.vercel.app queued, was building") = true /\
    forall lines i,
      fallback_records no_unicode_alnum lines i
        (lit "https://a.vercel.app queued, was building") = [(u, st)].
Proof.
  apply (@same_line_status_wins no_unicode_alnum
           (lit "https://a.vercel.app queued, was building")).
  - reflexivity.
  - reflexivity.
  - right. vm_compute. discriminate.
Defined.


Lemma X10_witness :
  exists oks,
    length oks = 9 /\
    actions (cleanup_project_deployments no_unicode_alnum false
               (lister_printing twelve_rows) deleter_ok demo tt)
    = Keep (lit "https://da.vercel.app") (lit "Queued")
      :: intersperse Sleep
           (delete_calls (tl (parse_deployments no_unicode_alnum false twelve_rows)) oks).
Proof.
  destruct (@pause_between_deletions no_unicode_alnum false unit
              (lister_printing twelve_rows) deleter_ok demo tt tt twelve_rows
              (lit "https://da.vercel.app", lit "Queued")
              (tl (parse_deployments no_unicode_alnum false twelve_rows)))
    as [oks [Hlen Ha]].
  - reflexivity.
  - discriminate.
  - vm_compute. reflexivity.
  - exists oks. split; [exact Hlen | exact Ha].
Defined.

Lemma X11_witness :
  let c := cleanup_project_deployments no_unicode_alnum false
             (lister_printing duplicate_rows) deleter_ok demo tt in
  In (lit "https://demo-a.vercel.app", lit "Building") (retained (actions c)) /\
  In (lit "https://demo-a.vercel.app", lit "Building") (deleted (actions c)).
Proof.
  apply (@duplicate_is_kept_and_deleted no_unicode_alnum false unit
           (lister_printing duplicate_rows) deleter_ok demo tt tt duplicate_rows
           (lit "https://demo-a.vercel.app", lit "Building")
           [(lit "https://demo-a.vercel.app", lit "Building")]).
  - reflexivity.
  - discriminate.
  - vm_compute. reflexivity.
  - now left.
Defined.

Lemma X12_witness : truthy (strip demo_output) = true.
Proof.
  apply (@lister_output_not_blank unit (lister_printing demo_output) demo tt demo_output).
  reflexivity.
Defined.

Lemma X13_witness :
  list_deployments lister_failing_loudly demo tt
  = list_deployments
      (fun _ _ _ w =>
         (Some {| returncode := 0; stdout := [];
                  stderr := lit "Error: see https://vercel.com/docs Building" |}, w))
      demo tt.
Proof.
  apply (@lister_ignores_exit_status unit lister_failing_loudly
           (fun _ _ _ w =>
              (Some {| returncode := 0; stdout := [];
                       stderr := lit "Error: see https://vercel.com/docs Building" |}, w))
           demo).
  intros cmd method w. cbn. repeat split; reflexivity.
Defined.

Lemma X15_witness :
  get_project_list (env_of (Some (lit " , ,")) None None)
  = get_project_list (env_of (Some (lit " , ,")) (Some (lit "site")) None) /\
  get_project_list (env_of (Some (lit " , ,")) (Some (lit "site")) None) = [].
Proof.
  destruct (@manual_list_overrides_default
              (env_of (Some (lit " , ,")) (Some (lit "site")) None)
              (env_of (Some (lit " , ,")) None None) (lit " , ,")) as [G1 G2].
  - reflexivity.
  - reflexivity.
  - split; [apply G1 | apply G2]; reflexivity.
Defined.

Lemma X16_witness :
  get_project_list (env_of (Some (lit "web,docs site")) None None)
  = [lit "web"; lit "docs site"].
Proof.
  apply (@project_list_round_trip (env_of (Some (lit "web,docs site")) None None)
           [lit "web"; lit "docs site"]).
  - discriminate.
  - repeat constructor; discriminate.
  - reflexivity.
Defined.

Lemma X17_witness :
  fst (main no_unicode_alnum false
         (env_of (Some demo) None (Some (lit "token")))
         (lister_printing demo_output) deleter_ok version_ok tt) = 0.
Proof.
  destruct (@main_exit_status no_unicode_alnum false unit
              (lister_printing demo_output) deleter_ok version_ok
              (env_of (Some demo) None (Some (lit "token"))) tt) as [_ [G _]].
  apply G. repeat split; vm_compute; reflexivity.
Defined.
